(** * hcp-asl: distortion-correction and MT-estimation drivers

    A shallow embedding of [scripts/distcorr_warps.py] and
    [scripts/mt_estimation_pipeline.py].  Python exceptions are values of
    [Exn]; a call that can raise returns [Res]; code that touches the file
    system, the working directory or external programs runs in the state
    and exception monad [M] over [World].  The definitions come first, the
    lemmas and theorems about them after. *)

From Stdlib Require Import ZArith QArith String List Lia.
From stdpp Require Import base option list strings gmap sorting.

Set Warnings "-clear-no-such-hyp".

Local Open Scope string_scope.
Local Open Scope Z_scope.

(** ** Python results and exceptions *)

Module Py.

Inductive Exn : Type :=
| IndexError
| ValueError
| TypeError
| ZeroDivisionError
| RuntimeError
| UnboundLocalError (var : string)
| NameError (var : string)
| KeyError (key : string)
| FileNotFoundError (path : list string)
| FileExistsError (path : list string)
| IsADirectoryError (path : list string)
| CalledProcessError (returncode : Z)
| SystemExit (code : Z).

Inductive Res (A : Type) : Type :=
| Ok (a : A)
| Raise (e : Exn).
Arguments Ok {A} a.
Arguments Raise {A} e.

Definition rbind {A B} (r : Res A) (k : A -> Res B) : Res B :=
  match r with
  | Ok a => k a
  | Raise e => Raise e
  end.

(** A comprehension [[f x for x in l]] whose body may raise. *)
Fixpoint rmap {A B} (f : A -> Res B) (l : list A) : Res (list B) :=
  match l with
  | [] => Ok []
  | x :: l' => rbind (f x) (fun y => rbind (rmap f l') (fun ys => Ok (y :: ys)))
  end.

Definition is_ok {A} (r : Res A) : bool :=
  match r with Ok _ => true | Raise _ => false end.

(** The line feed that ["\n"] denotes. *)
Definition nl : string := String (Ascii.ascii_of_nat 10) EmptyString.

End Py.
Import Py.

(** ** The part of numpy that [create_ti_image] uses

  Arrays are nested lists in C order.  Element arithmetic is left
  abstract ([Radd], [Rmul], [of_int]): the driver computes in float64, and
  nothing below relies on an algebraic law of the element type. *)

Module Numpy.
Section Arrays.
Context {R : Type}.
Variable Radd Rmul : R -> R -> R.
Variable of_int : Z -> R.

(** [np.arange(0, n)] *)
Definition arange (n : Z) : list Z := seqZ 0 n.

(** [np.tile(a, reps)] of a one-dimensional [a]; a negative repetition
    count is a ValueError. *)
Definition tile {A} (a : list A) (reps : Z) : Res (list A) :=
  if reps <? 0 then Raise ValueError
  else Ok (mjoin (replicate (Z.to_nat reps) a)).

(** [np.tile(x, (nx, ny, nz))] of a scalar [x]. *)
Definition tile3 {A} (x : A) (size : nat * nat * nat) : list (list (list A)) :=
  let '(nx, ny, nz) := size in
  replicate nx (replicate ny (replicate nz x)).

(** Python's [n // d]. *)
Definition floordiv (n d : Z) : Res Z :=
  if d =? 0 then Raise ZeroDivisionError else Ok (n / d).

(** [a.reshape(1, 1, n, 1)] of a one-dimensional [a]. *)
Definition reshape_1_1_n_1 {A} (a : list A) (n : nat) : Res (list (list (list (list A)))) :=
  if Nat.eqb (length a) n then Ok [[ (fun v => [v]) <$> a ]]
  else Raise ValueError.

(** [vol[x][y][z]], [None] when out of range. *)
Definition at3 {A} (vol : list (list (list A))) (x y z : nat) : option A :=
  match vol !! x with
  | Some plane =>
      match plane !! y with
      | Some row => row !! z
      | None => None
      end
  | None => None
  end.

(** The extents of a three-dimensional array, read off its first plane
    and first row. *)
Definition shape3 {A} (vol : list (list (list A))) : nat * nat * nat :=
  match vol with
  | [] => (0, 0, 0)%nat
  | plane :: _ =>
      (length vol, length plane,
       match plane with [] => 0%nat | row :: _ => length row end)
  end.

(** [a.transpose(1, 2, 3, 0)]: [out[x][y][z][t] = a[t][x][y][z]].  The
    array built from an empty list of volumes is one-dimensional, and
    transposing it over four axes is a ValueError; so is a list of
    volumes of unequal shapes. *)
Definition transpose_1_2_3_0 {A} (a : list (list (list (list A))))
  : Res (list (list (list (list A)))) :=
  match a with
  | [] => Raise ValueError
  | a0 :: _ =>
      let '(nx, ny, nz) := shape3 a0 in
      rmap (fun x =>
        rmap (fun y =>
          rmap (fun z =>
            rmap (fun vol =>
              match at3 vol x y z with
              | Some v => Ok v
              | None => Raise ValueError
              end) a)
          (seq 0 nz))
        (seq 0 ny))
      (seq 0 nx)
  end.

(** One axis of numpy broadcasting: equal extents are paired up, an
    extent of one is stretched, anything else is a ValueError. *)
Fixpoint zip_res {A B C} (f : A -> B -> Res C) (la : list A) (lb : list B)
  : Res (list C) :=
  match la, lb with
  | [], [] => Ok []
  | a :: la', b :: lb' =>
      rbind (f a b) (fun c => rbind (zip_res f la' lb') (fun cs => Ok (c :: cs)))
  | _, _ => Raise ValueError
  end.

Definition broadcast {A B C} (f : A -> B -> Res C) (la : list A) (lb : list B)
  : Res (list C) :=
  match la, lb with
  | [a], _ => rmap (f a) lb
  | _, [b] => rmap (fun a => f a b) la
  | _, _ => zip_res f la lb
  end.

(** [a * s] for an integer array [a] and a float scalar [s]. *)
Definition scale4 (a : list (list (list (list Z)))) (s : R)
  : list (list (list (list R))) :=
  map (map (map (map (fun v => Rmul (of_int v) s)))) a.

(** [a + b] on four-dimensional arrays. *)
Definition add4 (a b : list (list (list (list R))))
  : Res (list (list (list (list R)))) :=
  broadcast (broadcast (broadcast (broadcast (fun u v => Ok (Radd u v))))) a b.

(** [create_ti_image(asl, tis, sliceband, slicedt, outname)], up to the
    array handed to [save_like]; [size] is [ImageSpace(asl).size]. *)
Definition create_ti_image (size : nat * nat * nat) (tis : list R)
    (sliceband : Z) (slicedt : R) : Res (list (list (list (list R)))) :=
  let n_slice := snd size in
  rbind (floordiv (Z.of_nat n_slice) sliceband) (fun reps =>
  rbind (tile (arange sliceband) reps) (fun tiled =>
  rbind (reshape_1_1_n_1 tiled n_slice) (fun slice_in_band =>
  rbind (transpose_1_2_3_0 ((fun x => tile3 x size) <$> tis)) (fun ti_array =>
  add4 ti_array (scale4 slice_in_band slicedt))))).

(** The timing row of one slice position: every TI shifted by that
    position's delay. *)
Definition ti_row (tis : list R) (slicedt : R) (v : Z) : list R :=
  (fun ti => Radd ti (Rmul (of_int v) slicedt)) <$> tis.

End Arrays.
End Numpy.

(** ** regtricks transforms, file contents and external programs

    A path is the list of its components below the root.  What a file
    holds is recorded as the computation that wrote it. *)

Module Regtricks.

Set Warnings "-register-all".

(** The grid an image is resampled onto: that of an image file, or
    [ImageSpace(image).resize_voxels(ImageSpace(like).vox_size /
    ImageSpace(image).vox_size)]. *)
Inductive Grid : Type :=
| GridOf (image : list string)
| Resized (image like : list string).

(** The transformation objects the driver builds. *)
Inductive Transform : Type :=
| Identity
| FromFlirt (mat src ref : list string)
| FromMcflirt (mats src ref : list string)
| FromFnirt (coefficients src ref : list string)
            (intensity_correct : bool) (constrain_jac : Q * Q)
| Volume (t : Transform) (index : nat)
| Inverse (t : Transform)
| Chain (ts : list Transform).

(** Modelled from the spec: [rt.chain] is regtricks code, not this
    repository's; section 3 has composition concatenate the element
    sequences of its arguments, in argument order. *)
Fixpoint chain_elements (t : Transform) : list Transform :=
  match t with
  | Chain ts => concat (map chain_elements ts)
  | _ => [t]
  end.

Definition chain (ts : list Transform) : Transform := Chain ts.

(** Whether a transform is a dense displacement field, and whether it was
    built with intensity (Jacobian) correction. *)
Definition is_nonlinear (t : Transform) : bool :=
  match t with FromFnirt _ _ _ _ _ => true | _ => false end.

Definition intensity_corrected (t : Transform) : bool :=
  match t with FromFnirt _ _ _ ic _ => ic | _ => false end.

End Regtricks.
Import Regtricks.

Module Os.

(** [os.path.join(base, *parts)] and [Path(base) / ...] for relative parts. *)
Definition join (base parts : list string) : list string := (base ++ parts)%list.

(** The external programs, with the arguments the driver passes. *)
Inductive Command : Type :=
| Fslroi (input output : list string) (tmin tsize : Z)
| AslRegMain (i o s sbet : list string)
| GradientUnwarp (infile : list string) (outfile : string) (coeffs : list string)
| Topup (imain datain : list string) (config out : string) (fout iout : list string)
| AslRegFinal (i o s sbet m tissseg imat fmap fmapmag fmapmagbrain : list string)
| Bet (input output : list string).

Inductive Content : Type :=
| Given (tag : string)
| Text (s : string)
| Appended (c : Content) (s : string)
| ToolOutput (cmd : Command)
| Resampled (t : Transform) (src : list string) (ref : Grid)
| Mask (t : Transform) (src : list string) (ref : Grid)
| Stacked (volumes : list (list string))
| WmMask (aparc_aseg : list string)
| ScaledBy2Pi (hz : list string)
| MeanOverTime (series : list string)
| FslMatrix (t : Transform) (src ref : list string)
| TimingImage (like : list string) (data : list (list (list (list Q)))).

Inductive Node : Type :=
| Dir
| File (c : Content).

Inductive Event : Type :=
| Ran (cmd : Command) (in_dir : list string) (returncode : Z)
| Saved (p : list string) (c : Content)
| Removed (p : list string)
| Replaced (src dst : list string).

(** What one run of an external program did: its exit status and the
    files it left behind. *)
Record ToolResult : Type := { returncode : Z; created : list (list string) }.

Record World : Type :=
  { fs : gmap (list string) Node; cwd : list string; log : list Event }.

Definition M (A : Type) : Type := World -> Res A * World.

Definition ret {A} (a : A) : M A := fun w => (Ok a, w).

Definition raise {A} (e : Exn) : M A := fun w => (Raise e, w).

Definition bind {A B} (m : M A) (k : A -> M B) : M B :=
  fun w =>
    match m w with
    | (Ok a, w') => k a w'
    | (Raise e, w') => (Raise e, w')
    end.

Definition lift {A} (r : Res A) : M A := fun w => (r, w).

(** An [if] without [else]. *)
Definition when (b : bool) (m : M unit) : M unit := if b then m else ret tt.

Definition set_fs (f : gmap (list string) Node) (w : World) : World :=
  {| fs := f; cwd := cwd w; log := log w |}.

Definition emit (e : Event) (w : World) : World :=
  {| fs := fs w; cwd := cwd w; log := (log w ++ [e])%list |}.

(** [os.path.exists] / [Path.exists] *)
Definition path_exists (p : list string) : M bool :=
  fun w => (Ok (bool_decide (is_Some (fs w !! p))), w).

(** [os.path.isfile] *)
Definition isfile (p : list string) : M bool :=
  fun w => (Ok (match fs w !! p with Some (File _) => true | _ => false end), w).

(** [os.getcwd] *)
Definition getcwd : M (list string) := fun w => (Ok (cwd w), w).

(** [os.chdir] *)
Definition chdir (d : list string) : M unit :=
  fun w =>
    match fs w !! d with
    | Some Dir => (Ok tt, {| fs := fs w; cwd := d; log := log w |})
    | _ => (Raise (FileNotFoundError d), w)
    end.

(** Reading an image, a matrix or a directory of matrices. *)
Definition load (p : list string) : M unit :=
  fun w =>
    match fs w !! p with
    | Some _ => (Ok tt, w)
    | None => (Raise (FileNotFoundError p), w)
    end.

(** Writing a whole file ([nb.save], [save_image], [save_like], [save_fsl]). *)
Definition save (p : list string) (c : Content) : M unit :=
  fun w =>
    match fs w !! p with
    | Some Dir => (Raise (IsADirectoryError p), w)
    | _ => (Ok tt, emit (Saved p c) (set_fs (<[p := File c]> (fs w)) w))
    end.

(** [open(p, "a")] followed by writes that add up to [s]. *)
Definition append (p : list string) (s : string) : M unit :=
  fun w =>
    match fs w !! p with
    | Some Dir => (Raise (IsADirectoryError p), w)
    | Some (File c) =>
        (Ok tt, emit (Saved p (Appended c s)) (set_fs (<[p := File (Appended c s)]> (fs w)) w))
    | None => (Ok tt, emit (Saved p (Text s)) (set_fs (<[p := File (Text s)]> (fs w)) w))
    end.

(** [os.remove] *)
Definition remove (p : list string) : M unit :=
  fun w =>
    match fs w !! p with
    | Some (File _) => (Ok tt, emit (Removed p) (set_fs (delete p (fs w)) w))
    | Some Dir => (Raise (IsADirectoryError p), w)
    | None => (Raise (FileNotFoundError p), w)
    end.

(** [os.replace] *)
Definition replace (src dst : list string) : M unit :=
  fun w =>
    match fs w !! src with
    | Some n =>
        (Ok tt, emit (Replaced src dst) (set_fs (<[dst := n]> (delete src (fs w))) w))
    | None => (Raise (FileNotFoundError src), w)
    end.

(** The directories [os.makedirs(d, exist_ok=True)] has to find or make:
    [d] and each of its ancestors, outermost first. *)
Fixpoint ancestors_and_self (d : list string) : list (list string) :=
  match d with
  | [] => []
  | c :: d' => [c] :: map (cons c) (ancestors_and_self d')
  end.

Definition mkdir_exist_ok (f : Res (gmap (list string) Node)) (d : list string)
  : Res (gmap (list string) Node) :=
  rbind f (fun f =>
    match f !! d with
    | Some (File _) => Raise (FileExistsError d)
    | Some Dir => Ok f
    | None => Ok (<[d := Dir]> f)
    end).

Definition makedirs (d : list string) : M unit :=
  fun w =>
    match fold_left mkdir_exist_ok (ancestors_and_self d) (Ok (fs w)) with
    | Ok f => (Ok tt, set_fs f w)
    | Raise e => (Raise e, w)
    end.

Definition write_outputs (cmd : Command) (ps : list (list string))
    (f : gmap (list string) Node) : gmap (list string) Node :=
  fold_left (fun f p => <[p := File (ToolOutput cmd)]> f) ps f.

Section Programs.
(** The environment decides what an external program does when it is
    run from a given directory on a given file system. *)
Variable env : Command -> list string -> gmap (list string) Node -> ToolResult.

(** [subprocess.run(cmd, check=check)]: the exit status is returned, and
    raised as CalledProcessError only when [check] is set and it is
    non-zero. *)
Definition run (cmd : Command) (check : bool) : M Z :=
  fun w =>
    let r := env cmd (cwd w) (fs w) in
    let w' := emit (Ran cmd (cwd w) (returncode r))
                   (set_fs (write_outputs cmd (created r) (fs w)) w) in
    if check && negb (returncode r =? 0)
    then (Raise (CalledProcessError (returncode r)), w')
    else (Ok (returncode r), w').

(** An fslpy wrapper ([fsl.wrappers.bet]): a failing program is raised as
    RuntimeError. *)
Definition run_fsl (cmd : Command) : M unit :=
  fun w =>
    let r := env cmd (cwd w) (fs w) in
    let w' := emit (Ran cmd (cwd w) (returncode r))
                   (set_fs (write_outputs cmd (created r) (fs w)) w) in
    if returncode r =? 0 then (Ok tt, w') else (Raise RuntimeError, w').

End Programs.

(** The files each program is documented to write, given the directory
    it runs in. *)
Definition outputs (in_dir : list string) (cmd : Command) : list (list string) :=
  match cmd with
  | Fslroi _ output _ _ => [output]
  | AslRegMain _ o _ _ => [join o ["asl2struct.mat"]]
  | GradientUnwarp _ outfile _ =>
      [join in_dir [outfile]; join in_dir ["fullWarp_abs.nii.gz"]]
  | Topup _ _ _ out fout iout =>
      [fout; iout; join in_dir [out ++ "_fieldcoef.nii.gz"];
       join in_dir [out ++ "_movpar.txt"]]
  | AslRegFinal _ o _ _ _ _ _ _ _ _ =>
      [join o ["asl2struct_warp.nii.gz"]; join o ["asl2struct.mat"];
       join o ["struct2asl.mat"]]
  | Bet _ output => [output]
  end.

(** Every exception [m] can raise satisfies [ok]. *)
Definition raises_only {A} (ok : Exn -> Prop) (m : M A) : Prop :=
  forall w e, fst (m w) = Raise e -> ok e.

(** An event that does not write, remove or rename the entry at [p]. *)
Definition spares (p : list string) (e : Event) : Prop :=
  match e with
  | Ran cmd d _ => p ∉ outputs d cmd
  | Saved q _ => q <> p
  | Removed q => q <> p
  | Replaced src dst => src <> p /\ dst <> p
  end.

(** An environment whose programs write nothing but their documented
    outputs. *)
Definition well_behaved
    (env : Command -> list string -> gmap (list string) Node -> ToolResult) : Prop :=
  forall cmd d f p, p ∈ created (env cmd d f) -> p ∈ outputs d cmd.

End Os.
Import Os.

Declare Scope py_scope.
Delimit Scope py_scope with py.
Notation "x <- m ;; k" := (Os.bind m (fun x => k))
  (at level 100, m at next level, k at level 200, right associativity) : py_scope.
Notation "m ;; k" := (Os.bind m (fun _ => k))
  (at level 100, k at level 200, right associativity) : py_scope.

(** ** [scripts/distcorr_warps.py] *)

Module DistcorrWarps.

Local Open Scope py_scope.

(** *** [find_field_maps] *)

(** [fnmatch(name, "*" + suffix)] *)
Definition ends_with (suffix name : string) : bool :=
  let n := String.length name in
  let m := String.length suffix in
  (m <=? n)%nat && String.eqb (substring (n - m) m name) suffix.

(** [scan_dir.glob("**/*-FieldMap_SE_EPI")]: every entry below [scan_dir],
    at any depth, whose name ends in [-FieldMap_SE_EPI]. *)
Definition glob_field_maps (f : gmap (list string) Node) (scan_dir : list string)
  : list (list string) :=
  filter (fun p =>
            Is_true (bool_decide (scan_dir `prefix_of` p)
                     && negb (bool_decide (p = scan_dir))
                     && match last p with
                        | Some name => ends_with "-FieldMap_SE_EPI" name
                        | None => false
                        end))
         (elements (dom f)).

(** The order of [pathlib] paths: lexicographic on the components, each
    compared as a string. *)
Fixpoint path_leb (p q : list string) : bool :=
  match p, q with
  | [], _ => true
  | _ :: _, [] => false
  | a :: p', b :: q' =>
      match String.compare a b with
      | Lt => true
      | Gt => false
      | Eq => path_leb p' q'
      end
  end.

Definition sorted (l : list (list string)) : list (list string) :=
  merge_sort (fun p q => Is_true (path_leb p q)) l.

(** [l[-2:]] *)
Definition last_two {A} (l : list A) : list A := drop (length l - 2) l.

Definition pa_file (subject_number : string) : list string :=
  ["resources"; "NIFTI"; "files";
   subject_number ++ "_V1_B_PCASLhr_SpinEchoFieldMap_PA.nii.gz"].

Definition ap_file (subject_number : string) : list string :=
  ["resources"; "NIFTI"; "files";
   subject_number ++ "_V1_B_PCASLhr_SpinEchoFieldMap_AP.nii.gz"].

Definition scan_dir (study_dir : list string) (subject_number : string) : list string :=
  join study_dir [subject_number; subject_number ++ "_V1_B"; "scans"].

(** [fm_dirs] *)
Definition field_map_dirs (f : gmap (list string) Node) (study_dir : list string)
    (subject_number : string) : list (list string) :=
  last_two (sorted (glob_field_maps f (scan_dir study_dir subject_number))).

Definition has (f : gmap (list string) Node) (p : list string) : bool :=
  bool_decide (is_Some (f !! p)).

Definition find_field_maps (f : gmap (list string) Node) (study_dir : list string)
    (subject_number : string) : Res (list string * list string) :=
  let fm_dirs := field_map_dirs f study_dir subject_number in
  match fm_dirs !! 0%nat with
  | None => Raise IndexError
  | Some d0 =>
      if has f (join d0 (pa_file subject_number)) then
        match fm_dirs with
        | [pa_dir; ap_dir] =>
            Ok (join pa_dir (pa_file subject_number), join ap_dir (ap_file subject_number))
        | _ => Raise ValueError
        end
      else
        match fm_dirs !! 1%nat with
        | None => Raise IndexError
        | Some d1 =>
            if has f (join d1 (pa_file subject_number)) then
              match fm_dirs with
              | [ap_dir; pa_dir] =>
                  Ok (join pa_dir (pa_file subject_number),
                      join ap_dir (ap_file subject_number))
              | _ => Raise ValueError
              end
            else Raise (UnboundLocalError "pa_dir")
        end
  end.

(** *** The generation steps *)

(** [force_refresh = False] in [main]. *)
Definition force_refresh : bool := false.

(** [if (not op.exists(p) or force_refresh) and also: body], [otherwise]
    standing for what the skipped branch leaves bound. *)
Definition if_stale {A} (p : list string) (also : bool) (body otherwise : M A) : M A :=
  b <- path_exists p ;;
  if (negb b || force_refresh) && also then body else otherwise.

(** Reading a local variable that an earlier branch may not have bound. *)
Definition deref {A} (name : string) (v : option A) : M A :=
  match v with
  | Some a => ret a
  | None => raise (UnboundLocalError name)
  end.

(** [t.apply_to_image(src, ref)] saved to [out]. *)
Definition load_grid (g : Grid) : M unit :=
  match g with
  | GridOf image => load image
  | Resized image like => load like ;; load image
  end.

Definition resample_to (t : Transform) (src : list string) (ref : Grid)
    (out : list string) : M unit :=
  load src ;; load_grid ref ;; save out (Resampled t src ref).

Definition topup_lines : string := "0 1 0 0.04845" ++ nl ++ "0 -1 0 0.04845".

(** [Registration.from_flirt], [MotionCorrection.from_mcflirt] and
    [NonLinearRegistration.from_fnirt] read their files when called. *)
Definition from_flirt (mat src ref : list string) : M Transform :=
  load mat ;; load src ;; load ref ;; ret (FromFlirt mat src ref).

Definition from_mcflirt (mats src ref : list string) : M Transform :=
  load mats ;; load src ;; load ref ;; ret (FromMcflirt mats src ref).

Definition from_fnirt (coefficients src ref : list string)
    (intensity_correct : bool) (constrain_jac : Q * Q) : M Transform :=
  load coefficients ;; load src ;; load ref ;;
  ret (FromFnirt coefficients src ref intensity_correct constrain_jac).

Section Driver.
Variable env : Command -> list string -> gmap (list string) Node -> ToolResult.
(** [ImageSpace(path).size] *)
Variable grid_size : list string -> nat * nat * nat.

Definition generate_asl2struct_initial (asl outdir struct struct_brain : list string)
  : M unit :=
  run env (AslRegMain asl outdir struct struct_brain) true ;; ret tt.

Definition generate_gdc_warp (asl_vol0 coeffs_path distcorr_dir : list string) : M unit :=
  pwd <- getcwd ;;
  chdir distcorr_dir ;;
  run env (GradientUnwarp asl_vol0 "gdc_corr_vol1.nii.gz" coeffs_path) false ;;
  chdir pwd.

Definition generate_wmmask (aparc_aseg : list string) : M Content :=
  load aparc_aseg ;; ret (WmMask aparc_aseg).

Definition generate_topup_params (pars_filepath : list string) : M unit :=
  b <- isfile pars_filepath ;;
  when b (remove pars_filepath) ;;
  append pars_filepath topup_lines.

Definition generate_fmaps (pa_ap_sefms params : list string) (config : string)
    (distcorr_dir : list string) : M unit :=
  pwd <- getcwd ;;
  chdir distcorr_dir ;;
  let topup_fmap := join distcorr_dir ["topup_fmap_hz.nii.gz"] in
  let corrected_sefms := join distcorr_dir ["corrected_sefms.nii.gz"] in
  run env (Topup pa_ap_sefms params config "topup" topup_fmap corrected_sefms) false ;;
  let fmap := join distcorr_dir ["fmap.nii.gz"] in
  let fmapmag := join distcorr_dir ["fmapmag.nii.gz"] in
  let fmapmagbrain := join distcorr_dir ["fmapmagbrain.nii.gz"] in
  load topup_fmap ;;
  load topup_fmap ;;
  save fmap (ScaledBy2Pi topup_fmap) ;;
  load corrected_sefms ;;
  save fmapmag (MeanOverTime corrected_sefms) ;;
  run_fsl env (Bet fmapmag fmapmagbrain) ;;
  chdir pwd.

Definition generate_asl_mask (struct_brain asl : list string) (asl2struct : Transform)
  : M Content :=
  load struct_brain ;;
  load asl ;;
  ret (Mask (Inverse asl2struct) struct_brain (GridOf asl)).

Definition generate_epidc_warp
    (asl_vol0_brain struct struct_brain asl_mask wmmask : list string)
    (asl2struct : Transform) (fmap fmapmag fmapmagbrain distcorr_dir : list string)
  : M unit :=
  let a2s_fsl := join distcorr_dir ["asl2struct.mat"] in
  load asl_vol0_brain ;;
  load struct ;;
  save a2s_fsl (FslMatrix asl2struct asl_vol0_brain struct) ;;
  run env (AslRegFinal asl_vol0_brain distcorr_dir struct struct_brain asl_mask
                       wmmask a2s_fsl fmap fmapmag fmapmagbrain) false ;;
  ret tt.

Definition binarise_image (image : list string) : M unit := load image.

Definition create_ti_image (asl : list string) (tis : list Q) (sliceband : Z)
    (slicedt : Q) (outname : list string) : M unit :=
  load asl ;;
  ti_array <- lift (Numpy.create_ti_image Qplus Qmult inject_Z
                      (grid_size asl) tis sliceband slicedt) ;;
  save outname (TimingImage asl ti_array).

(** *** The paths [main] works with, below [sub_base] *)

Definition pvs_dir (sub_base : list string) := join sub_base ["T1w"; "ASL"; "PVEs"].
Definition t1_asl_dir (sub_base : list string) := join sub_base ["T1w"; "ASL"].
Definition distcorr_dir (sub_base : list string) :=
  join sub_base ["ASL"; "TIs"; "SecondPass"; "DistCorr"].
Definition reg_dir (sub_base : list string) := join sub_base ["T1w"; "ASL"; "reg"].
Definition t1_dir (sub_base : list string) := join sub_base ["T1w"].
Definition asl_dir (sub_base : list string) :=
  join sub_base ["ASL"; "TIs"; "SecondPass"; "STCorr2"].
Definition asl_out_dir (sub_base : list string) :=
  join (t1_asl_dir sub_base) ["TIs"; "DistCorr"].
Definition calib_out_dir (sub_base : list string) :=
  join (t1_asl_dir sub_base) ["Calib"; "Calib0"; "DistCorr"].

Definition tis_stcorr (sub_base : list string) :=
  join (asl_dir sub_base) ["tis_stcorr.nii.gz"].
Definition tis (sub_base : list string) := join sub_base ["ASL"; "TIs"; "tis.nii.gz"].
Definition struct (sub_base : list string) :=
  join (t1_dir sub_base) ["T1w_acpc_dc_restore.nii.gz"].
Definition struct_brain (sub_base : list string) :=
  join (t1_dir sub_base) ["T1w_acpc_dc_restore_brain.nii.gz"].
Definition asl_vol0 (sub_base : list string) :=
  join (asl_dir sub_base) ["tis_stcorr_vol1.nii.gz"].
Definition t1_asl_grid (sub_base : list string) :=
  join (t1_dir sub_base) ["ASL"; "reg"; "ASL_grid_T1w_acpc_dc_restore.nii.gz"].
Definition t1_asl_grid_mask (sub_base : list string) :=
  join (reg_dir sub_base) ["ASL_grid_T1w_acpc_dc_restore_brain_mask.nii.gz"].
Definition calib (sub_base : list string) :=
  join sub_base ["ASL"; "Calib"; "Calib0"; "MTCorr"; "calib0_mtcorr.nii.gz"].
Definition mcdir (sub_base : list string) :=
  join sub_base ["ASL"; "TIs"; "SecondPass"; "MoCo"; "asln2m0.mat"].
Definition gdc_path (sub_base : list string) :=
  join (distcorr_dir sub_base) ["fullWarp_abs.nii.gz"].
Definition pa_ap_sefms (sub_base : list string) :=
  join (distcorr_dir sub_base) ["merged_sefms.nii.gz"].
Definition topup_params (sub_base : list string) :=
  join (distcorr_dir sub_base) ["topup_params.txt"].
Definition fmap (sub_base : list string) := join (distcorr_dir sub_base) ["fmap.nii.gz"].
Definition fmapmag (sub_base : list string) :=
  join (distcorr_dir sub_base) ["fmapmag.nii.gz"].
Definition fmapmagbrain (sub_base : list string) :=
  join (distcorr_dir sub_base) ["fmapmagbrain.nii.gz"].
Definition perfusion (sub_base : list string) :=
  join sub_base ["ASL"; "TIs"; "SecondPass"; "OxfordASL"; "native_space"; "perfusion.nii.gz"].
Definition distcorr_out_dir (sub_base : list string) (target : string) :=
  if String.eqb target "structural" then asl_out_dir sub_base else distcorr_dir sub_base.
Definition gdc_tis_vol1_name (sub_base : list string) (target : string) :=
  join (distcorr_out_dir sub_base target) ["gdc_tis_vol1.nii.gz"].
Definition asl2struct_initial_path (sub_base : list string) (target : string) :=
  join (reg_dir sub_base)
       [if String.eqb target "asl" then "asl2struct_init.mat" else "asl2struct_final.mat"].
Definition mask_name (sub_base : list string) (target : string) :=
  if String.eqb target "asl"
  then join (reg_dir sub_base) ["asl_vol1_mask_init.nii.gz"]
  else join (reg_dir sub_base) ["asl_vol1_mask_final.nii.gz"].
Definition gdc_unreg_img_brain (sub_base : list string) :=
  join sub_base ["ASL"; "TIs"; "SecondPass"; "DistCorr"; "gdc_tis_vol1_brain.nii.gz"].
Definition wmmask (sub_base : list string) := join sub_base ["T1w"; "wmmask.nii.gz"].
Definition aparc_seg (sub_base : list string) :=
  join (t1_dir sub_base) ["aparc+aseg.nii.gz"].
Definition epi_dc_path (sub_base : list string) (target : string) :=
  join (distcorr_dir sub_base)
       [if String.eqb target "asl"
        then "asl2struct_warp_init.nii.gz" else "asl2struct_warp_final.nii.gz"].
Definition struct2asl_aslreg (sub_base : list string) (target : string) :=
  join (distcorr_out_dir sub_base target) ["struct2asl.mat"].
Definition asl_outpath (sub_base : list string) (target : string) :=
  join (distcorr_out_dir sub_base target) ["tis_distcorr.nii.gz"].
Definition calib_outpath (sub_base : list string) :=
  join (calib_out_dir sub_base) ["calib0_dcorr.nii.gz"].
Definition sfs_name (sub_base : list string) :=
  join (asl_dir sub_base) ["combined_scaling_factors.nii.gz"].
Definition sfs_outpath (sub_base : list string) (target : string) :=
  join (distcorr_out_dir sub_base target) ["combined_scaling_factors.nii.gz"].
Definition est_t1_name (sub_base : list string) :=
  join sub_base ["ASL"; "TIs"; "SecondPass"; "SatRecov2"; "spatial"; "mean_T1t_filt.nii.gz"].
Definition reg_est_t1_name (sub_base : list string) :=
  join (reg_dir sub_base) ["mean_T1t_filt.nii.gz"].
Definition ti_asl (sub_base : list string) := join sub_base ["ASL"; "TIs"; "timing_img.nii.gz"].
Definition ti_t1 (sub_base : list string) := join (t1_asl_dir sub_base) ["timing_img.nii.gz"].

(** [reference = t1_asl_grid if target=='structural' else asl] *)
Definition reference (sub_base : list string) (target : string) : Grid :=
  GridOf (if String.eqb target "structural"
          then t1_asl_grid sub_base else tis_stcorr sub_base).

(** *** The transforms [main] builds *)

Definition constrain_jac : Q * Q := ((1 # 100)%Q, (100 # 1)%Q).

Definition asl2calib_mc (sub_base : list string) : Transform :=
  FromMcflirt (mcdir sub_base) (tis sub_base) (calib sub_base).
Definition calib2asl0 (sub_base : list string) : Transform :=
  Inverse (Volume (asl2calib_mc sub_base) 0).
Definition asl_mc (sub_base : list string) : Transform :=
  chain [asl2calib_mc sub_base; calib2asl0 sub_base].
Definition gdc (sub_base : list string) : Transform :=
  FromFnirt (gdc_path sub_base) (asl_vol0 sub_base) (asl_vol0 sub_base) true constrain_jac.
Definition epi_dc_warp (sub_base : list string) (target : string) : Transform :=
  FromFnirt (epi_dc_path sub_base target) (mask_name sub_base target) (struct sub_base)
            true constrain_jac.
Definition struct2asl (sub_base : list string) (target : string) : Transform :=
  FromFlirt (struct2asl_aslreg sub_base target) (struct sub_base) (tis sub_base).
(** [epi_dc] as it stands after line 442. *)
Definition epi_dc (sub_base : list string) (target : string) : Transform :=
  if String.eqb target "asl"
  then chain [epi_dc_warp sub_base target; struct2asl sub_base target]
  else epi_dc_warp sub_base target.

(** Every resampling [main] can save: the file written, the transform
    applied, the image resampled and the grid it is resampled onto. *)
Definition resamplings (sub_base : list string) (target : string)
  : list (list string * Transform * list string * Grid) :=
  [ (t1_asl_grid sub_base, Identity, struct sub_base,
     Resized (struct sub_base) (tis_stcorr sub_base));
    (gdc_tis_vol1_name sub_base target, gdc sub_base, asl_vol0 sub_base,
     GridOf (asl_vol0 sub_base));
    (asl_outpath sub_base target,
     chain [asl_mc sub_base; gdc sub_base; epi_dc sub_base target],
     tis_stcorr sub_base, reference sub_base target);
    (calib_outpath sub_base,
     chain [calib2asl0 sub_base; gdc sub_base; epi_dc sub_base target],
     calib sub_base, reference sub_base target);
    (sfs_outpath sub_base target,
     chain [asl_mc sub_base; gdc sub_base; epi_dc sub_base target],
     sfs_name sub_base, reference sub_base target);
    (reg_est_t1_name sub_base,
     chain [Volume (asl_mc sub_base) 0; gdc sub_base; epi_dc sub_base target],
     est_t1_name sub_base, reference sub_base target);
    (ti_t1 sub_base,
     FromFlirt (join (distcorr_dir sub_base) ["asl2struct.mat"])
               (tis_stcorr sub_base) (struct sub_base),
     ti_asl sub_base, reference sub_base target) ].

(** An event is expected when, if it saves a resampling, that resampling
    is a row of [resamplings]. *)
Definition expected (sub_base : list string) (target : string) (e : Event) : Prop :=
  match e with
  | Saved p (Resampled t src ref) => In (p, t, src, ref) (resamplings sub_base target)
  | _ => True
  end.

(** The order the claim on output chains asks for: the per-timepoint
    motion correction first, then the gradient-distortion warp, then the
    EPI-distortion warp. *)
Definition motion_gdc_epi (sub_base : list string) (target : string) (t : Transform)
  : Prop :=
  exists rest,
    chain_elements t
    = (asl2calib_mc sub_base :: calib2asl0 sub_base :: gdc sub_base
         :: epi_dc_warp sub_base target :: rest).

(** The files that [main] writes only inside a test for that very file. *)
Definition guarded (sub_base : list string) (target : string) : list (list string) :=
  [ asl_vol0 sub_base;
    t1_asl_grid sub_base;
    t1_asl_grid_mask sub_base;
    gdc_path sub_base;
    pa_ap_sefms sub_base;
    gdc_tis_vol1_name sub_base target;
    asl2struct_initial_path sub_base target;
    mask_name sub_base target;
    gdc_unreg_img_brain sub_base;
    wmmask sub_base;
    epi_dc_path sub_base target;
    asl_outpath sub_base target;
    calib_outpath sub_base;
    sfs_outpath sub_base target;
    reg_est_t1_name sub_base;
    ti_asl sub_base;
    ti_t1 sub_base ].

(** *** [main]

    [study_dir] is taken absolute and normalised, so that
    [op.abspath(op.join(study_dir, sub_id))] adds one component. *)
Definition main (study_dir : list string) (sub_id : string)
    (grads : option (list string)) (target : string) : M unit :=
  let is_asl := String.eqb target "asl" in
  let is_structural := String.eqb target "structural" in
  let sub_base := join study_dir [sub_id] in
  grad_coefficients <- match grads with
                       | Some g => ret g
                       | None => raise TypeError
                       end ;;
  makedirs (pvs_dir sub_base) ;;
  makedirs (t1_asl_dir sub_base) ;;
  makedirs (distcorr_dir sub_base) ;;
  makedirs (reg_dir sub_base) ;;
  makedirs (asl_out_dir sub_base) ;;
  makedirs (calib_out_dir sub_base) ;;
  (* 294-301 *)
  if_stale (asl_vol0 sub_base) is_asl
    (run env (Fslroi (tis_stcorr sub_base) (asl_vol0 sub_base) 0 1) true ;; ret tt)
    (ret tt) ;;
  (* 303-312 *)
  if_stale (t1_asl_grid sub_base) is_asl
    (load (tis_stcorr sub_base) ;;
     load (struct sub_base) ;;
     resample_to Identity (struct sub_base)
       (Resized (struct sub_base) (tis_stcorr sub_base)) (t1_asl_grid sub_base))
    (ret tt) ;;
  (* 314-325 *)
  if_stale (t1_asl_grid_mask sub_base) is_asl
    (load (tis_stcorr sub_base) ;;
     load (struct_brain sub_base) ;;
     binarise_image (struct_brain sub_base) ;;
     save (t1_asl_grid_mask sub_base)
       (Mask Identity (struct_brain sub_base)
             (Resized (struct_brain sub_base) (tis_stcorr sub_base))))
    (ret tt) ;;
  (* 327-336 *)
  asl2calib_mc_ <- from_mcflirt (mcdir sub_base) (tis sub_base) (calib sub_base) ;;
  let calib2asl0_ := Inverse (Volume asl2calib_mc_ 0) in
  let asl_mc_ := chain [asl2calib_mc_; calib2asl0_] in
  (* 338-343 *)
  if_stale (gdc_path sub_base) is_asl
    (generate_gdc_warp (asl_vol0 sub_base) grad_coefficients (distcorr_dir sub_base))
    (ret tt) ;;
  gdc_ <- from_fnirt (gdc_path sub_base) (asl_vol0 sub_base) (asl_vol0 sub_base)
            true constrain_jac ;;
  (* 345-357 *)
  sefms <- (fun w => lift (find_field_maps (fs w) study_dir sub_id) w) ;;
  let pa_sefm := fst sefms in
  let ap_sefm := snd sefms in
  if_stale (pa_ap_sefms sub_base) is_asl
    (load pa_sefm ;;
     load ap_sefm ;;
     load pa_sefm ;;
     save (pa_ap_sefms sub_base) (Stacked [pa_sefm; ap_sefm]))
    (ret tt) ;;
  generate_topup_params (topup_params sub_base) ;;
  let topup_config := "b02b0.cnf" in
  (* 359-366 *)
  e1 <- path_exists (fmap sub_base) ;;
  e2 <- path_exists (fmapmag sub_base) ;;
  e3 <- path_exists (fmapmagbrain sub_base) ;;
  when ((negb (e1 && e2 && e3) || force_refresh) && is_asl)
    (generate_fmaps (pa_ap_sefms sub_base) (topup_params sub_base) topup_config
                    (distcorr_dir sub_base)) ;;
  (* 368-374 *)
  let unreg_img :=
    if is_asl then Some (asl_vol0 sub_base)
    else if is_structural then Some (perfusion sub_base)
    else None in
  (* 376-384 *)
  unreg_img <- if_stale (gdc_tis_vol1_name sub_base target) is_asl
    (img <- deref "unreg_img" unreg_img ;;
     resample_to gdc_ img (GridOf img) (gdc_tis_vol1_name sub_base target) ;;
     ret (Some (gdc_tis_vol1_name sub_base target)))
    (ret unreg_img) ;;
  (* 386-396 *)
  if_stale (asl2struct_initial_path sub_base target) true
    (img <- deref "unreg_img" unreg_img ;;
     generate_asl2struct_initial img (reg_dir sub_base) (struct sub_base)
                                 (struct_brain sub_base) ;;
     replace (join (reg_dir sub_base) ["asl2struct.mat"])
             (asl2struct_initial_path sub_base target))
    (ret tt) ;;
  img <- deref "unreg_img" unreg_img ;;
  asl2struct_initial <- from_flirt (asl2struct_initial_path sub_base target) img
                          (struct sub_base) ;;
  (* 398-405 *)
  if_stale (mask_name sub_base target) true
    (asl_mask <- generate_asl_mask (struct_brain sub_base) img asl2struct_initial ;;
     load img ;;
     save (mask_name sub_base target) asl_mask)
    (ret tt) ;;
  (* 407-412 *)
  unreg_img <- if_stale (gdc_unreg_img_brain sub_base) is_asl
    (run_fsl env (Bet img (gdc_unreg_img_brain sub_base)) ;;
     ret (gdc_unreg_img_brain sub_base))
    (ret img) ;;
  (* 414-419 *)
  if_stale (wmmask sub_base) is_asl
    (wmmask_img <- generate_wmmask (aparc_seg sub_base) ;;
     load (struct sub_base) ;;
     save (wmmask sub_base) wmmask_img)
    (ret tt) ;;
  (* 421-435 *)
  if_stale (epi_dc_path sub_base target) true
    (generate_epidc_warp unreg_img (struct sub_base) (struct_brain sub_base)
       (mask_name sub_base target) (wmmask sub_base) asl2struct_initial
       (fmap sub_base) (fmapmag sub_base) (fmapmagbrain sub_base) (distcorr_dir sub_base) ;;
     replace (join (distcorr_dir sub_base) ["asl2struct_warp.nii.gz"])
             (epi_dc_path sub_base target))
    (ret tt) ;;
  epi_dc_ <- from_fnirt (epi_dc_path sub_base target) (mask_name sub_base target)
               (struct sub_base) true constrain_jac ;;
  (* 437-442 *)
  epi_dc_ <- (if is_asl
              then (struct2asl_ <- from_flirt (struct2asl_aslreg sub_base target)
                                     (struct sub_base) (tis sub_base) ;;
                    ret (chain [epi_dc_; struct2asl_]))
              else ret epi_dc_) ;;
  (* 444-454 *)
  asl2struct_mc_dc <- if_stale (asl_outpath sub_base target) true
    (let c := chain [asl_mc_; gdc_; epi_dc_] in
     resample_to c (tis_stcorr sub_base) (reference sub_base target)
                 (asl_outpath sub_base target) ;;
     ret (Some c))
    (ret None) ;;
  (* 456-464 *)
  if_stale (calib_outpath sub_base) is_structural
    (resample_to (chain [calib2asl0_; gdc_; epi_dc_]) (calib sub_base)
                 (reference sub_base target) (calib_outpath sub_base))
    (ret tt) ;;
  (* 466-479 *)
  if_stale (sfs_outpath sub_base target) true
    (let c := match asl2struct_mc_dc with
              | Some c => c
              | None => chain [asl_mc_; gdc_; epi_dc_]
              end in
     resample_to c (sfs_name sub_base) (reference sub_base target)
                 (sfs_outpath sub_base target))
    (ret tt) ;;
  (* 481-489 *)
  if_stale (reg_est_t1_name sub_base) is_structural
    (resample_to (chain [Volume asl_mc_ 0; gdc_; epi_dc_]) (est_t1_name sub_base)
                 (reference sub_base target) (reg_est_t1_name sub_base))
    (ret tt) ;;
  (* 491-497 *)
  let slicedt := (59 # 1000)%Q in
  let tis_ := [(17 # 10)%Q; (22 # 10)%Q; (27 # 10)%Q; (32 # 10)%Q; (37 # 10)%Q] in
  let sliceband := 10 in
  if_stale (ti_asl sub_base) is_asl
    (create_ti_image (tis_stcorr sub_base) tis_ sliceband slicedt (ti_asl sub_base))
    (ret tt) ;;
  (* 499-508 *)
  if_stale (ti_t1 sub_base) is_structural
    (asl2struct <- from_flirt (join (distcorr_dir sub_base) ["asl2struct.mat"])
                     (tis_stcorr sub_base) (struct sub_base) ;;
     resample_to asl2struct (ti_asl sub_base) (reference sub_base target)
                 (ti_t1 sub_base))
    (ret tt).

End Driver.

End DistcorrWarps.

(** ** [scripts/mt_estimation_pipeline.py] *)

Module MtEstimation.

Definition TR : Z := 8.

Definition ROIS (roi : string) : option (list string) :=
  if String.eqb roi "wm" then Some ["wm"]
  else if String.eqb roi "gm" then Some ["gm"]
  else if String.eqb roi "csf" then Some ["csf"]
  else if String.eqb roi "combined" then Some ["combined"]
  else if String.eqb roi "all" then Some ["wm"; "gm"; "csf"; "combined"]
  else None.

(** The command line after tokenisation: the string given for each
    option, if any, and whether each flag is present. *)
Record RawArgs : Type :=
  { raw_studydir : option string;
    raw_subjectlist : option string;
    raw_roi : option string;
    raw_method : option string;
    raw_grads : option string;
    raw_out : option string;
    raw_ignore_dropouts : bool;
    raw_cores : option string;
    raw_interpolation : option string;
    raw_verbose : bool;
    raw_time : bool;
    raw_no_refresh : bool }.

Record Namespace : Type :=
  { studydir : string;
    subjectlist : string;
    roi : string;
    method : string;
    grads : string;
    out : string;
    ignore_dropouts : bool;
    cores : Z;
    interpolation : Z;
    verbose : bool;
    time : bool;
    no_refresh : bool }.

(** What [setup_mtestimation] hands back for a subject: the subject and
    a status, 1 for success. *)
Record SetupResult : Type :=
  { subject : list string; status : Z; detail : string }.

Inductive Printed : Type :=
| StudyDirLine (d : list string)
| SubjectCountLine (n : nat)
| RoisLine (rois : list string)
| ResultLine (r : SetupResult)
| TimeLine
| ErrorLine (e : string).

Inductive Event : Type :=
| Print (what : Printed)
| SetupCall (subject : list string) (rois : list string) (coeffs_path : string)
            (interpolation : Z) (ignore_dropouts force_refresh : bool)
| EstimateCall (subjects : list (list string)) (rois : list string) (tr : Z)
               (method : string) (outdir : string) (ignore_dropouts : bool).

(** *** argparse

    [parser.error] prints a usage message and exits with status 2. *)
Definition usage_error {A} : Res A := Raise (SystemExit 2).

(** [required=True] *)
Definition required (v : option string) : Res string :=
  match v with
  | Some s => Ok s
  | None => usage_error
  end.

(** A string option with [choices] and a [default]: the default is taken
    as it is, a given value has to be one of the choices. *)
Definition choice (choices : list string) (default : string) (v : option string)
  : Res string :=
  match v with
  | None => Ok default
  | Some s => if existsb (String.eqb s) choices then Ok s else usage_error
  end.

(** [x in range(lo, hi)] for an integer [x]. *)
Definition in_range (lo hi x : Z) : bool := (lo <=? x) && (x <? hi).

(** [int(s)] on the plain decimal spellings, an optional minus sign and
    digits; Python's [int] takes more (blanks around, a plus sign,
    underscores), which is why [main] takes the conversion as a parameter. *)
Definition digit (c : Ascii.ascii) : option Z :=
  let n := Z.of_nat (Ascii.nat_of_ascii c) in
  if (48 <=? n) && (n <=? 57) then Some (n - 48) else None.

Fixpoint digits (acc : Z) (s : string) : option Z :=
  match s with
  | EmptyString => Some acc
  | String c s' =>
      match digit c with
      | Some d => digits (10 * acc + d) s'
      | None => None
      end
  end.

Definition int_of_decimal (s : string) : option Z :=
  match s with
  | EmptyString => None
  | String c s' =>
      if Ascii.eqb c (Ascii.ascii_of_nat 45)
      then match s' with
           | EmptyString => None
           | _ => option_map Z.opp (digits 0 s')
           end
      else digits 0 s
  end.

Section Main.
(** Python's [int(s)]; [None] stands for ValueError. *)
Variable py_int : string -> option Z.
(** [mp.cpu_count()] and [Path.cwd()] *)
Variable cpu_count : Z.
Variable cwd : string.
(** [Path(s).resolve(strict=True)]; [None] stands for FileNotFoundError. *)
Variable resolve : string -> option (list string).
(** [np.loadtxt(path, dtype=str).reshape(-1)] *)
Variable loadtxt : list string -> Res (list string).
(** [hcpasl.MTEstimation.setup_mtestimation] and [estimate_mt]: their code
    is not part of these scripts. *)
Variable setup_mtestimation :
  list string -> list string -> string -> Z -> bool -> bool -> Res SetupResult.
Variable estimate_mt :
  list (list string) -> list string -> Z -> string -> string -> bool -> Res (list string).

(** An option with [type=int], [choices=range(lo, hi)] and a [default]. *)
Definition int_choice (lo hi default : Z) (v : option string) : Res Z :=
  match v with
  | None => Ok default
  | Some s =>
      match py_int s with
      | None => usage_error
      | Some x => if in_range lo hi x then Ok x else usage_error
      end
  end.

Definition parse_args (a : RawArgs) : Res Namespace :=
  rbind (required (raw_studydir a)) (fun studydir =>
  rbind (required (raw_subjectlist a)) (fun subjectlist =>
  rbind (choice ["combined"; "wm"; "gm"; "csf"; "all"] "combined" (raw_roi a)) (fun roi =>
  rbind (choice ["separate"; "together"] "separate" (raw_method a)) (fun method =>
  rbind (required (raw_grads a)) (fun grads =>
  rbind (int_choice 1 (cpu_count + 1) 1 (raw_cores a)) (fun cores =>
  rbind (int_choice 0 (5 + 1) 3 (raw_interpolation a)) (fun interpolation =>
  Ok {| studydir := studydir;
        subjectlist := subjectlist;
        roi := roi;
        method := method;
        grads := grads;
        out := match raw_out a with Some o => o | None => cwd end;
        ignore_dropouts := raw_ignore_dropouts a;
        cores := cores;
        interpolation := interpolation;
        verbose := raw_verbose a;
        time := raw_time a;
        no_refresh := negb (raw_no_refresh a) |}))))))).

Definition resolve_strict (s : string) : Res (list string) :=
  match resolve s with
  | Some p => Ok p
  | None => Raise (FileNotFoundError [s])
  end.

Definition setup_call (ns : Namespace) (rois : list string) (subject : list string)
  : Res SetupResult :=
  setup_mtestimation subject rois (grads ns) (interpolation ns)
                     (ignore_dropouts ns) (no_refresh ns).

Definition setup_event (ns : Namespace) (rois : list string) (subject : list string)
  : Event :=
  SetupCall subject rois (grads ns) (interpolation ns) (ignore_dropouts ns) (no_refresh ns).

(** The loop over [results]. *)
Fixpoint report (results : list SetupResult) (successful_subs : list (list string))
  : list Event * list (list string) :=
  match results with
  | [] => ([], successful_subs)
  | result :: rest =>
      let successful_subs :=
        if status result =? 1
        then (successful_subs ++ [subject result])%list else successful_subs in
      let '(printed, subs) := report rest successful_subs in
      (Print (ResultLine result) :: printed, subs)
  end.

(** [main] from line 102 on, for parsed arguments: the result and what
    was printed and called, in order. *)
Definition run_pipeline (ns : Namespace) : Res unit * list Event :=
  match resolve_strict (studydir ns) with
  | Raise e => (Raise e, [])
  | Ok studydir_ =>
  match rbind (resolve_strict (subjectlist ns)) loadtxt with
  | Raise e => (Raise e, [])
  | Ok names =>
  let subjects := map (fun subid => join studydir_ [subid]) names in
  match ROIS (roi ns) with
  | None => (Raise (KeyError (roi ns)), [])
  | Some rois =>
  let said :=
    if verbose ns
    then [Print (StudyDirLine studydir_); Print (SubjectCountLine (length subjects));
          Print (RoisLine rois)]
    else [] in
  let called := (said ++ map (setup_event ns rois) subjects)%list in
  match rmap (setup_call ns rois) subjects with
  | Raise e => (Raise e, called)
  | Ok results =>
  let '(printed, successful_subs) := report results [] in
  let reported := (called ++ printed)%list in
  if time ns && Nat.eqb (length subjects) 0 then (Raise ZeroDivisionError, reported)
  else
  let timed := (reported ++ (if time ns then [Print TimeLine] else []))%list in
  let estimated :=
    (timed ++ [EstimateCall successful_subs rois TR (method ns) (out ns)
                            (ignore_dropouts ns)])%list in
  match estimate_mt successful_subs rois TR (method ns) (out ns) (ignore_dropouts ns) with
  | Raise e => (Raise e, estimated)
  | Ok errors => (Ok tt, (estimated ++ map (fun e => Print (ErrorLine e)) errors)%list)
  end
  end
  end
  end
  end.

Definition main (a : RawArgs) : Res unit * list Event :=
  match parse_args a with
  | Raise e => (Raise e, [])
  | Ok ns => run_pipeline ns
  end.

End Main.

End MtEstimation.

(** ** Concrete inputs for the examples *)

Module Demo.
Import DistcorrWarps.

(** *** A subject directory to run the distortion-correction driver on *)

Definition demo_base : list string := ["data"; "S1"].

Definition demo_scans : list string := ["data"; "S1"; "S1_V1_B"; "scans"].

Definition demo_inputs : list (list string * Node) :=
  [ (["home"], Dir);
    (["data"], Dir);
    (demo_base, Dir);
    (join demo_scans ["05-FieldMap_SE_EPI"], Dir);
    (join demo_scans ["17-FieldMap_SE_EPI"], Dir);
    (join demo_scans ["18-FieldMap_SE_EPI"], Dir);
    (join demo_scans ["17-FieldMap_SE_EPI"; "resources"; "NIFTI"; "files";
                      "S1_V1_B_PCASLhr_SpinEchoFieldMap_AP.nii.gz"], File (Given "ap"));
    (join demo_scans ["18-FieldMap_SE_EPI"; "resources"; "NIFTI"; "files";
                      "S1_V1_B_PCASLhr_SpinEchoFieldMap_PA.nii.gz"], File (Given "pa"));
    (tis_stcorr demo_base, File (Given "tis_stcorr"));
    (tis demo_base, File (Given "tis"));
    (calib demo_base, File (Given "calib"));
    (mcdir demo_base, Dir);
    (struct demo_base, File (Given "T1w"));
    (struct_brain demo_base, File (Given "T1w brain"));
    (aparc_seg demo_base, File (Given "aparc+aseg"));
    (sfs_name demo_base, File (Given "scaling factors")) ].

Definition demo_world : World :=
  {| fs := list_to_map demo_inputs; cwd := ["home"]; log := [] |}.

(** Programs that succeed and leave their documented outputs. *)
Definition tools_succeed (cmd : Command) (d : list string)
    (f : gmap (list string) Node) : ToolResult :=
  {| returncode := 0; created := outputs d cmd |}.

Definition demo_grid (image : list string) : nat * nat * nat := (1, 1, 10)%nat.

Definition demo_grads : option (list string) := Some ["data"; "coeff.grad"].

(** The same subject once the first pass is done: the files a run for
    target [asl] leaves that a run for target [structural] reads, the
    perfusion image and the estimated T1 map. *)
Definition demo_inputs_structural : list (list string * Node) :=
  (demo_inputs ++
   [ (asl_vol0 demo_base, File (Given "first volume"));
     (gdc_path demo_base, File (Given "gradient warp"));
     (t1_asl_grid demo_base, File (Given "T1w on the ASL grid"));
     (ti_asl demo_base, File (Given "timing image"));
     (perfusion demo_base, File (Given "perfusion"));
     (est_t1_name demo_base, File (Given "estimated T1")) ])%list.

Definition demo_world_structural : World :=
  {| fs := list_to_map demo_inputs_structural; cwd := ["home"]; log := [] |}.

(** [gradient_unwarp.py] exits with status 1 after it has written its
    warp; every other program succeeds. *)
Definition gradient_unwarp_fails (cmd : Command) (d : list string)
    (f : gmap (list string) Node) : ToolResult :=
  match cmd with
  | GradientUnwarp _ _ _ =>
      {| returncode := 1; created := [join d ["fullWarp_abs.nii.gz"]] |}
  | _ => tools_succeed cmd d f
  end.

(** [asl_reg --mainonly] exits with status 1. *)
Definition asl_reg_main_fails (cmd : Command) (d : list string)
    (f : gmap (list string) Node) : ToolResult :=
  match cmd with
  | AslRegMain _ _ _ _ => {| returncode := 1; created := [] |}
  | _ => tools_succeed cmd d f
  end.

(** The fresh subject, but for a parameter file left by an earlier run. *)
Definition demo_world_old_params : World :=
  {| fs := <[topup_params demo_base := File (Given "old parameters")]>
             (list_to_map demo_inputs);
     cwd := ["home"]; log := [] |}.

Definition demo_run_old_params : Res unit * World :=
  main tools_succeed demo_grid ["data"] "S1" demo_grads "asl" demo_world_old_params.

(** A world in which the output directory and the current directory exist. *)
Definition demo_world_dirs : World :=
  {| fs := list_to_map [ (["home"], Dir); (["out"], Dir);
                         (["sefms.nii.gz"], File (Given "stacked field maps"));
                         (["params.txt"], File (Given "parameters")) ];
     cwd := ["home"]; log := [] |}.

Definition demo_run_asl : Res unit * World :=
  main tools_succeed demo_grid ["data"] "S1" demo_grads "asl" demo_world.

Definition demo_run_structural : Res unit * World :=
  main tools_succeed demo_grid ["data"] "S1" demo_grads "structural" demo_world_structural.

(** *** A command line and a batch for the MT-estimation driver *)

Definition demo_args (interp : option string) : MtEstimation.RawArgs :=
  {| MtEstimation.raw_studydir := Some "study";
     MtEstimation.raw_subjectlist := Some "subjects.txt";
     MtEstimation.raw_roi := None;
     MtEstimation.raw_method := None;
     MtEstimation.raw_grads := Some "coeff.grad";
     MtEstimation.raw_out := None;
     MtEstimation.raw_ignore_dropouts := false;
     MtEstimation.raw_cores := None;
     MtEstimation.raw_interpolation := interp;
     MtEstimation.raw_verbose := false;
     MtEstimation.raw_time := true;
     MtEstimation.raw_no_refresh := false |}.

Definition demo_resolve (s : string) : option (list string) := Some ["data"; s].

Definition demo_loadtxt (p : list string) : Res (list string) := Ok ["s1"; "s2"; "s3"].

(** The setup of [s2] fails and says so in its status. *)
Definition demo_setup (subject rois : list string) (coeffs : string) (interp : Z)
    (ignore_dropouts force_refresh : bool) : Res MtEstimation.SetupResult :=
  Ok {| MtEstimation.subject := subject;
        MtEstimation.status :=
          if bool_decide (subject = ["data"; "study"; "s2"]) then 0 else 1;
        MtEstimation.detail := "" |}.

Definition demo_estimate (subjects : list (list string)) (rois : list string) (tr : Z)
    (method outdir : string) (ignore_dropouts : bool) : Res (list string) := Ok [].

Definition demo_main (a : MtEstimation.RawArgs) : Res unit * list MtEstimation.Event :=
  MtEstimation.main MtEstimation.int_of_decimal 4 "here" demo_resolve demo_loadtxt
                    demo_setup demo_estimate a.

Definition demo_namespace : MtEstimation.Namespace :=
  {| MtEstimation.studydir := "study";
     MtEstimation.subjectlist := "subjects.txt";
     MtEstimation.roi := "combined";
     MtEstimation.method := "separate";
     MtEstimation.grads := "coeff.grad";
     MtEstimation.out := "here";
     MtEstimation.ignore_dropouts := false;
     MtEstimation.cores := 1;
     MtEstimation.interpolation := 3;
     MtEstimation.verbose := false;
     MtEstimation.time := true;
     MtEstimation.no_refresh := true |}.

Definition demo_result (name : string) (status : Z) : MtEstimation.SetupResult :=
  {| MtEstimation.subject := ["data"; "study"; name];
     MtEstimation.status := status;
     MtEstimation.detail := "" |}.

Definition demo_results : list MtEstimation.SetupResult :=
  [demo_result "s1" 1; demo_result "s2" 0; demo_result "s3" 1].

End Demo.
Import Demo.

(** ** Further ways of following a computation *)

Module Outcomes.

Local Open Scope py_scope.

(** [m] never returns normally. *)
Definition fails {A} (m : M A) : Prop := forall w, is_ok (fst (m w)) = false.

(** A value that [m] returns satisfies [Q]. *)
Definition returns {A} (Q : A -> Prop) (m : M A) : Prop :=
  forall w a, fst (m w) = Ok a -> Q a.

(** When [m] raises, the working directory is where it was. *)
Definition stays_on_error {A} (m : M A) : Prop :=
  forall w e w', m w = (Raise e, w') -> cwd w' = cwd w.

(** When [m] returns normally there is an entry at [p]. *)
Definition ensures {A} (p : list string) (m : M A) : Prop :=
  forall w a w', m w = (Ok a, w') -> is_Some (fs w' !! p).

Section Watch.
Context {St : Type}.
Variable step : St -> Event -> option St.

(** A monitor reads the log event by event; [None] is its refusal. *)
Fixpoint watch (s : St) (evs : list Event) : option St :=
  match evs with
  | [] => Some s
  | e :: evs' =>
      match step s e with
      | Some s' => watch s' evs'
      | None => None
      end
  end.

(** The monitor, started in [s], accepts what [m] logs, and ends in a
    state that [Q] relates to the value returned. *)
Definition follows {A} (s : St) (Q : A -> St -> Prop) (m : M A) : Prop :=
  forall w, exists evs s',
    log (snd (m w)) = (log w ++ evs)%list /\
    watch s evs = Some s' /\
    forall a, fst (m w) = Ok a -> Q a s'.

End Watch.

End Outcomes.
Import Outcomes.

(** ** The files and steps of [main], by the part they play *)

Module DistcorrWarpsRoles.
Import DistcorrWarps.

(** The files [main] reads and expects to find. *)
Definition inputs (sub_base : list string) : list (list string) :=
  [ tis_stcorr sub_base;
    tis sub_base;
    calib sub_base;
    mcdir sub_base;
    struct sub_base;
    struct_brain sub_base;
    aparc_seg sub_base;
    sfs_name sub_base;
    est_t1_name sub_base;
    perfusion sub_base ].

(** The files a run is made for. *)
Definition final_products (sub_base : list string) (target : string)
  : list (list string) :=
  [asl_outpath sub_base target; sfs_outpath sub_base target]
  ++ (if String.eqb target "asl" then [ti_asl sub_base]
      else [calib_outpath sub_base; reg_est_t1_name sub_base; ti_t1 sub_base]).

(** What only a run for target [asl] does: it runs [fslroi],
    [gradient_unwarp.py], [topup] and [bet], and it saves the ASL-gridded
    T1 image and its mask, the merged field maps, the two field-map
    images, the gradient-corrected first volume, the white-matter mask
    and the ASL-space timing image. *)
Definition asl_pass_only (sub_base : list string) (target : string) (e : Event) : Prop :=
  match e with
  | Ran (Fslroi _ _ _ _) _ _ => True
  | Ran (GradientUnwarp _ _ _) _ _ => True
  | Ran (Topup _ _ _ _ _ _) _ _ => True
  | Ran (Bet _ _) _ _ => True
  | Saved p _ =>
      p ∈ [ t1_asl_grid sub_base; t1_asl_grid_mask sub_base; pa_ap_sefms sub_base;
            fmap sub_base; fmapmag sub_base; gdc_tis_vol1_name sub_base target;
            wmmask sub_base; ti_asl sub_base ]
  | _ => False
  end.

(** What only a run for target [structural] does: it saves the corrected
    calibration image, the registered T1 estimate and the timing image in
    T1 space. *)
Definition structural_pass_only (sub_base : list string) (e : Event) : Prop :=
  match e with
  | Saved p _ => p ∈ [ calib_outpath sub_base; reg_est_t1_name sub_base; ti_t1 sub_base ]
  | _ => False
  end.

Definition in_its_pass (sub_base : list string) (target : string) (e : Event) : Prop :=
  (String.eqb target "asl" = false -> ~ asl_pass_only sub_base target e) /\
  (String.eqb target "structural" = false -> ~ structural_pass_only sub_base e).

(** What [main] may remove or rename: the topup parameter file, and the
    two files [asl_reg] leaves under a name of its own. *)
Definition removes_only_own (sub_base : list string) (target : string) (e : Event)
  : Prop :=
  match e with
  | Removed p => p = topup_params sub_base
  | Replaced src dst =>
      (src = join (reg_dir sub_base) ["asl2struct.mat"] /\
       dst = asl2struct_initial_path sub_base target) \/
      (src = join (distcorr_dir sub_base) ["asl2struct_warp.nii.gz"] /\
       dst = epi_dc_path sub_base target)
  | _ => True
  end.

(** [unreg_img] in a run for target [asl], lines 370 and 383: the
    gradient-corrected first volume once the run has saved it, the first
    volume as extracted until then. *)
Definition unregistered (sub_base : list string) (corrected : bool) : list string :=
  if corrected then gdc_tis_vol1_name sub_base "asl" else asl_vol0 sub_base.

(** The image an event reads as the unregistered one: the input of
    [asl_reg --mainonly], and of the [bet] that writes
    [gdc_tis_vol1_brain.nii.gz]. *)
Definition reads_unregistered (sub_base : list string) (e : Event)
  : option (list string) :=
  match e with
  | Ran (AslRegMain i _ _ _) _ _ => Some i
  | Ran (Bet i o) _ _ =>
      if decide (o = gdc_unreg_img_brain sub_base) then Some i else None
  | _ => None
  end.

Definition saves (p : list string) (e : Event) : bool :=
  match e with
  | Saved q _ => bool_decide (q = p)
  | _ => false
  end.

(** A monitor whose state is whether the gradient-corrected first volume
    has been saved so far; it refuses a registration or brain extraction
    that reads another image than [unregistered] gives for that state. *)
Definition unregistered_monitor (sub_base : list string) (corrected : bool) (e : Event)
  : option bool :=
  match reads_unregistered sub_base e with
  | Some i => if decide (i = unregistered sub_base corrected) then Some corrected else None
  | None => Some (corrected || saves (gdc_tis_vol1_name sub_base "asl") e)
  end.

End DistcorrWarpsRoles.
Import DistcorrWarpsRoles.

(** ** Further concrete inputs *)

Module DemoMore.
Import DistcorrWarps.

(** The fresh subject, but for a gradient-corrected first volume left by
    an earlier run. *)
Definition demo_world_corrected_before : World :=
  {| fs := <[gdc_tis_vol1_name demo_base "asl" := File (Given "corrected first volume")]>
             (list_to_map demo_inputs);
     cwd := ["home"]; log := [] |}.

Definition demo_run_corrected_before : Res unit * World :=
  main tools_succeed demo_grid ["data"] "S1" demo_grads "asl" demo_world_corrected_before.

(** A command line without [--grads]. *)
Definition demo_args_no_grads : MtEstimation.RawArgs :=
  {| MtEstimation.raw_studydir := Some "study";
     MtEstimation.raw_subjectlist := Some "subjects.txt";
     MtEstimation.raw_roi := None;
     MtEstimation.raw_method := None;
     MtEstimation.raw_grads := None;
     MtEstimation.raw_out := None;
     MtEstimation.raw_ignore_dropouts := false;
     MtEstimation.raw_cores := None;
     MtEstimation.raw_interpolation := None;
     MtEstimation.raw_verbose := false;
     MtEstimation.raw_time := true;
     MtEstimation.raw_no_refresh := false |}.

(** A subject list without an entry. *)
Definition demo_loadtxt_empty (p : list string) : Res (list string) := Ok [].

End DemoMore.
Import DemoMore.

(** ** Facts about the numpy fragment and [create_ti_image] *)

Module NumpyFacts.
Import Numpy.

Lemma rmap_ok {A B} (f : A -> Res B) (g : A -> B) (l : list A) :
  (forall x, x ∈ l -> f x = Ok (g x)) -> rmap f l = Ok (g <$> l).
Proof.
  induction l as [|x l IH]; intros Hf; csimpl; [reflexivity|].
  rewrite Hf by left. csimpl. rewrite IH; [reflexivity|].
  intros y Hy. apply Hf. by right.
Qed.

Section Arrays.
Context {R : Type}.
Variable Radd Rmul : R -> R -> R.
Variable of_int : Z -> R.

Local Abbreviation create_ti_image := (Numpy.create_ti_image Radd Rmul of_int).
Local Abbreviation ti_row := (Numpy.ti_row Radd Rmul of_int).
Local Abbreviation add4 := (Numpy.add4 Radd).
Local Abbreviation scale4 := (Numpy.scale4 Rmul of_int).

Lemma rmap_fmap_ok {A B} (f : B -> Res A) (h : A -> B) (l : list A) :
  (forall v, f (h v) = Ok v) -> rmap f (h <$> l) = Ok l.
Proof.
  intros Hf. induction l as [|v l IH]; csimpl; [reflexivity|].
  rewrite Hf. csimpl. by rewrite IH.
Qed.

Lemma rmap_seq_const {A} (f : nat -> Res A) (c : A) (n m : nat) :
  (forall i, (m <= i < m + n)%nat -> f i = Ok c) ->
  rmap f (seq m n) = Ok (replicate n c).
Proof.
  revert m. induction n as [|n IH]; intros m Hf; simpl; [reflexivity|].
  rewrite Hf by lia. simpl. rewrite IH; [reflexivity|].
  intros i Hi. apply Hf. lia.
Qed.

Lemma rmap_replicate {A B} (f : A -> Res B) (a : A) (b : B) (n : nat) :
  f a = Ok b -> rmap f (replicate n a) = Ok (replicate n b).
Proof.
  intros Hf. induction n as [|n IH]; simpl; [reflexivity|].
  by rewrite Hf; simpl; rewrite IH.
Qed.

Lemma at3_tile3 {A} (v : A) (nx ny nz x y z : nat) :
  (x < nx)%nat -> (y < ny)%nat -> (z < nz)%nat ->
  at3 (tile3 v (nx, ny, nz)) x y z = Some v.
Proof.
  intros Hx Hy Hz. unfold at3, tile3.
  rewrite lookup_replicate_2 by done.
  rewrite lookup_replicate_2 by done.
  by rewrite lookup_replicate_2.
Qed.

Lemma shape3_tile3 {A} (v : A) (nx ny nz : nat) :
  shape3 (tile3 v (nx, ny, nz)) =
    match nx, ny with
    | O, _ => (0, 0, 0)%nat
    | S _, O => (nx, 0, 0)%nat
    | S _, S _ => (nx, ny, nz)
    end.
Proof.
  destruct nx as [|nx]; [reflexivity|].
  destruct ny as [|ny]; simpl; rewrite ?length_replicate; reflexivity.
Qed.

(** Stacking one constant volume per TI and moving the time axis last
    gives the volume whose every voxel holds the list of TIs. *)
Lemma transpose_tiled {A} (tis : list A) (nx ny nz : nat) :
  tis <> [] ->
  transpose_1_2_3_0 ((fun x => tile3 x (nx, ny, nz)) <$> tis)
  = Ok (tile3 tis (nx, ny, nz)).
Proof.
  intros Hne. destruct tis as [|t0 tis']; [done|].
  assert (Hcore : forall x y z, (x < nx)%nat -> (y < ny)%nat -> (z < nz)%nat ->
    rmap (fun vol => match at3 vol x y z with
                     | Some v => Ok v | None => Raise ValueError end)
         ((fun x => tile3 x (nx, ny, nz)) <$> t0 :: tis') = Ok (t0 :: tis')).
  { intros x y z Hx Hy Hz. apply rmap_fmap_ok. intros v.
    by rewrite at3_tile3. }
  unfold transpose_1_2_3_0.
  rewrite fmap_cons in *. cbv beta iota.
  rewrite shape3_tile3.
  revert Hcore.
  generalize (tile3 t0 (nx, ny, nz) :: ((fun x => tile3 x (nx, ny, nz)) <$> tis')).
  generalize (t0 :: tis'). intros tis a Hcore.
  destruct nx as [|nx']; [reflexivity|].
  destruct ny as [|ny'].
  - unfold tile3. apply rmap_seq_const. reflexivity.
  - unfold tile3. apply rmap_seq_const. intros x Hx.
    apply rmap_seq_const. intros y Hy.
    apply rmap_seq_const. intros z Hz.
    apply Hcore; lia.
Qed.

Lemma broadcast_stretch_r {A B C} (f : A -> B -> Res C) (la : list A) (b : B) :
  broadcast f la [b] = rmap (fun a => f a b) la.
Proof.
  destruct la as [|a [|a' la]]; try reflexivity.
Qed.

Lemma broadcast_same_length {A B C} (f : A -> B -> Res C) (la : list A) (lb : list B) :
  length la = length lb -> broadcast f la lb = zip_res f la lb.
Proof.
  intros Hlen.
  destruct la as [|a [|a' la]]; destruct lb as [|b [|b' lb]];
    try discriminate Hlen; reflexivity.
Qed.

Lemma zip_res_replicate_fmap {A B C D} (f : A -> B -> Res C) (g : D -> B)
    (h : D -> C) (a : A) (l : list D) :
  (forall d, f a (g d) = Ok (h d)) ->
  zip_res f (replicate (length l) a) (g <$> l) = Ok (h <$> l).
Proof.
  intros Hf. induction l as [|d l IH]; csimpl; [reflexivity|].
  rewrite Hf. csimpl. by rewrite IH.
Qed.

(** Position [z] of [sliceband] repeated [k] times holds [z mod sliceband]. *)
Lemma tiled_arange_lookup (sliceband : Z) (k z : nat) :
  0 < sliceband ->
  Z.of_nat z < Z.of_nat k * sliceband ->
  mjoin (replicate k (arange sliceband)) !! z = Some (Z.of_nat z mod sliceband).
Proof.
  intros Hsb. revert z. induction k as [|k IH]; intros z Hz; [lia|].
  simpl. unfold arange at 1.
  destruct (decide (Z.of_nat z < sliceband)) as [Hlt|Hge].
  - rewrite lookup_app_l by (rewrite length_seqZ; lia).
    rewrite lookup_seqZ_lt by done. f_equal.
    rewrite Z.mod_small; lia.
  - rewrite lookup_app_r by (rewrite length_seqZ; lia).
    rewrite length_seqZ. rewrite IH by lia. f_equal.
    replace (Z.of_nat (z - Z.to_nat sliceband))
      with (Z.of_nat z + (-1) * sliceband) by lia.
    apply Z_mod_plus_full.
Qed.

Lemma tiled_arange_length (sliceband : Z) (k : nat) :
  0 <= sliceband ->
  Z.of_nat (length (mjoin (replicate k (arange sliceband)))) = Z.of_nat k * sliceband.
Proof.
  intros Hsb. induction k as [|k IH]; simpl; [lia|].
  rewrite length_app. unfold arange at 1. rewrite length_seqZ. lia.
Qed.

Lemma create_ti_image_closed_form (nx ny nz : nat) (tis : list R)
    (sliceband : Z) (slicedt : R) :
  0 < sliceband -> (sliceband | Z.of_nat nz) -> tis <> [] ->
  create_ti_image (nx, ny, nz) tis sliceband slicedt
  = Ok (replicate nx (replicate ny
          (ti_row tis slicedt <$>
             mjoin (replicate (Z.to_nat (Z.of_nat nz / sliceband)) (arange sliceband))))).
Proof.
  intros Hsb [q Hq] Hne. unfold Numpy.create_ti_image, floordiv. cbn [snd].
  destruct (Z.eqb_spec sliceband 0) as [->|_]; [lia|]. cbn [rbind].
  assert (Hdiv : Z.of_nat nz / sliceband = q) by (rewrite Hq; apply Z.div_mul; lia).
  assert (Hq0 : 0 <= q) by nia.
  rewrite Hdiv. unfold tile.
  destruct (Z.ltb_spec q 0) as [?|_]; [lia|]. cbn [rbind].
  set (tiled := mjoin (replicate (Z.to_nat q) (arange sliceband))).
  assert (Hlen : length tiled = nz).
  { apply Nat2Z.inj. unfold tiled. rewrite tiled_arange_length by lia. lia. }
  unfold reshape_1_1_n_1. rewrite Hlen, Nat.eqb_refl. cbn [rbind].
  rewrite transpose_tiled by done. cbn [rbind].
  unfold Numpy.add4, Numpy.scale4, tile3. cbn [map].
  rewrite broadcast_stretch_r.
  apply rmap_replicate.
  rewrite broadcast_stretch_r.
  apply rmap_replicate.
  rewrite broadcast_same_length
    by (rewrite length_replicate, length_map, length_fmap; done).
  rewrite <- Hlen.
  change (map (map (fun v : Z => Rmul (of_int v) slicedt)) ((fun v : Z => [v]) <$> tiled))
    with ((map (fun v : Z => Rmul (of_int v) slicedt)) <$> ((fun v : Z => [v]) <$> tiled)).
  rewrite <- list_fmap_compose.
  apply (zip_res_replicate_fmap _ _ (ti_row tis slicedt)).
  intros v. cbn [compose map]. rewrite broadcast_stretch_r.
  unfold Numpy.ti_row. apply rmap_ok. reflexivity.
Qed.


End Arrays.


(** Without the divisibility the reshape fails: no timing image is saved. *)
Example create_ti_image_indivisible :
  Numpy.create_ti_image Z.add Z.mul id (2, 1, 4)%nat [100; 200; 300] 3 7
  = Raise ValueError.
Proof. reflexivity. Qed.

End NumpyFacts.

(** ** Facts about the world monad

    Three ways of following a computation step by step: what it adds to
    the log ([emits]), which existing entries it leaves alone ([keeps]),
    and where it leaves the working directory. *)

Module OsFacts.

Local Open Scope py_scope.

Lemma bind_ok_inv {A B} (m : M A) (k : A -> M B) (w w' : World) (b : B) :
  (x <- m ;; k x) w = (Ok b, w') ->
  exists a w1, m w = (Ok a, w1) /\ k a w1 = (Ok b, w').
Proof.
  unfold bind. destruct (m w) as [[a|e] w1]; [eauto|discriminate].
Qed.

Lemma bind_run {A B} (m : M A) (k : A -> M B) (w w1 : World) (a : A) :
  m w = (Ok a, w1) -> (x <- m ;; k x) w = k a w1.
Proof. unfold bind. by intros ->. Qed.

Lemma bind_raise {A B} (m : M A) (k : A -> M B) (w w1 : World) (e : Exn) :
  m w = (Raise e, w1) -> (x <- m ;; k x) w = (Raise e, w1).
Proof. unfold bind. by intros ->. Qed.

(** *** What a computation adds to the log *)

(** Every event [m] logs satisfies [P], and a value it returns satisfies [Q]. *)
Definition emits {A} (P : Event -> Prop) (Q : A -> Prop) (m : M A) : Prop :=
  forall w, exists evs,
    log (snd (m w)) = (log w ++ evs)%list /\
    Forall P evs /\
    forall a, fst (m w) = Ok a -> Q a.

Lemma emits_silent {A} (P : Event -> Prop) (Q : A -> Prop) (m : M A) :
  (forall w, log (snd (m w)) = log w) ->
  (forall w a, fst (m w) = Ok a -> Q a) ->
  emits P Q m.
Proof.
  intros Hlog HQ w. exists []. rewrite app_nil_r. split; [apply Hlog|].
  split; [constructor|apply HQ].
Qed.

Lemma emits_ret {A} (P : Event -> Prop) (Q : A -> Prop) (a : A) :
  Q a -> emits P Q (ret a).
Proof. intros HQ. apply emits_silent; [done|]. intros w a' [= <-]. done. Qed.

Lemma emits_raise {A} (P : Event -> Prop) (Q : A -> Prop) (e : Exn) :
  emits P Q (raise e).
Proof. apply emits_silent; [done|]. intros w a [=]. Qed.

Lemma emits_lift {A} (P : Event -> Prop) (r : Res A) :
  emits P (fun _ => True) (lift r).
Proof. by apply emits_silent. Qed.

Lemma emits_bind {A B} (P : Event -> Prop) (Q : A -> Prop) (R : B -> Prop)
    (m : M A) (k : A -> M B) :
  emits P Q m -> (forall a, Q a -> emits P R (k a)) -> emits P R (x <- m ;; k x).
Proof.
  intros Hm Hk w. destruct (Hm w) as (evs & Hlog & HP & HQ).
  unfold bind. destruct (m w) as [[a|e] w1]; cbn [fst snd] in *.
  - destruct (Hk a (HQ a eq_refl) w1) as (evs' & Hlog' & HP' & HR).
    exists (evs ++ evs')%list. rewrite Hlog', Hlog, app_assoc.
    split; [done|]. split; [by apply Forall_app|done].
  - exists evs. split; [done|]. split; [done|]. intros b [=].
Qed.

Lemma emits_weaken {A} (P : Event -> Prop) (Q Q' : A -> Prop) (m : M A) :
  emits P Q m -> (forall a, Q a -> Q' a) -> emits P Q' m.
Proof.
  intros Hm HQ w. destruct (Hm w) as (evs & Hlog & HP & Hq).
  exists evs. eauto.
Qed.

Lemma emits_when (P : Event -> Prop) (b : bool) (m : M unit) :
  emits P (fun _ => True) m -> emits P (fun _ => True) (when b m).
Proof. destruct b; [done|]. intros _. by apply emits_ret. Qed.

Lemma emits_path_exists (P : Event -> Prop) (p : list string) :
  emits P (fun _ => True) (path_exists p).
Proof. by apply emits_silent. Qed.

Lemma emits_isfile (P : Event -> Prop) (p : list string) :
  emits P (fun _ => True) (isfile p).
Proof. by apply emits_silent. Qed.

Lemma emits_getcwd (P : Event -> Prop) : emits P (fun _ => True) getcwd.
Proof. by apply emits_silent. Qed.

Lemma emits_chdir (P : Event -> Prop) (d : list string) :
  emits P (fun _ => True) (chdir d).
Proof.
  apply emits_silent; [|done]. intros w. unfold chdir.
  by destruct (fs w !! d) as [[]|].
Qed.

Lemma emits_load (P : Event -> Prop) (p : list string) :
  emits P (fun _ => True) (load p).
Proof.
  apply emits_silent; [|done]. intros w. unfold load. by destruct (fs w !! p).
Qed.

Lemma emits_makedirs (P : Event -> Prop) (d : list string) :
  emits P (fun _ => True) (makedirs d).
Proof.
  apply emits_silent; [|done]. intros w. unfold makedirs.
  by destruct (fold_left _ _ _).
Qed.

Lemma emits_one {A} (P : Event -> Prop) (m : M A) (e : World -> Event) :
  (forall w, log (snd (m w)) = log w \/ log (snd (m w)) = (log w ++ [e w])%list) ->
  (forall w, P (e w)) ->
  emits P (fun _ => True) m.
Proof.
  intros Hlog HP w. destruct (Hlog w) as [H|H].
  - exists []. rewrite app_nil_r. by repeat split.
  - exists [e w]. split; [done|]. split; [|done]. by repeat constructor.
Qed.

Lemma emits_save (P : Event -> Prop) (p : list string) (c : Content) :
  P (Saved p c) -> emits P (fun _ => True) (save p c).
Proof.
  intros HP. apply (emits_one P _ (fun _ => Saved p c)); [|done].
  intros w. unfold save. destruct (fs w !! p) as [[]|]; cbn; auto.
Qed.

Lemma emits_append (P : Event -> Prop) (p : list string) (s : string) :
  (forall c, P (Saved p (Appended c s))) -> P (Saved p (Text s)) ->
  emits P (fun _ => True) (append p s).
Proof.
  intros HP1 HP2.
  assert (HP : forall w, P (Saved p match fs w !! p with
                                       | Some (File c) => Appended c s
                                       | _ => Text s
                                       end)).
  { intros w. by destruct (fs w !! p) as [[]|]. }
  apply (emits_one P _ (fun w => Saved p match fs w !! p with
                                         | Some (File c) => Appended c s
                                         | _ => Text s
                                         end)); [|done].
  intros w. unfold append. destruct (fs w !! p) as [[]|]; cbn; auto.
Qed.

Lemma emits_remove (P : Event -> Prop) (p : list string) :
  P (Removed p) -> emits P (fun _ => True) (remove p).
Proof.
  intros HP. apply (emits_one P _ (fun _ => Removed p)); [|done].
  intros w. unfold remove. destruct (fs w !! p) as [[]|]; cbn; auto.
Qed.

Lemma emits_replace (P : Event -> Prop) (src dst : list string) :
  P (Replaced src dst) -> emits P (fun _ => True) (replace src dst).
Proof.
  intros HP. apply (emits_one P _ (fun _ => Replaced src dst)); [|done].
  intros w. unfold replace. destruct (fs w !! src); cbn; auto.
Qed.

Section Programs.
Variable env : Command -> list string -> gmap (list string) Node -> ToolResult.

Lemma emits_run (P : Event -> Prop) (cmd : Command) (check : bool) :
  (forall d rc, P (Ran cmd d rc)) -> emits P (fun _ => True) (run env cmd check).
Proof.
  intros HP.
  apply (emits_one P _ (fun w => Ran cmd (cwd w) (returncode (env cmd (cwd w) (fs w)))));
    [|done].
  intros w. unfold run. right. by destruct (check && _).
Qed.

Lemma emits_run_fsl (P : Event -> Prop) (cmd : Command) :
  (forall d rc, P (Ran cmd d rc)) -> emits P (fun _ => True) (run_fsl env cmd).
Proof.
  intros HP.
  apply (emits_one P _ (fun w => Ran cmd (cwd w) (returncode (env cmd (cwd w) (fs w)))));
    [|done].
  intros w. unfold run_fsl. right. by destruct (_ =? 0).
Qed.

End Programs.

(** *** Which entries a computation leaves alone *)

(** An entry that exists at [p] is the same after [m], and nothing [m]
    logs touches it. *)
Definition keeps {A} (p : list string) (m : M A) : Prop :=
  forall w, is_Some (fs w !! p) ->
    fs (snd (m w)) !! p = fs w !! p /\
    exists evs, log (snd (m w)) = (log w ++ evs)%list /\ Forall (spares p) evs.

Lemma keeps_pure {A} (p : list string) (m : M A) :
  (forall w, fs (snd (m w)) = fs w /\ log (snd (m w)) = log w) -> keeps p m.
Proof.
  intros H w _. destruct (H w) as [-> ->]. split; [done|].
  exists []. by rewrite app_nil_r.
Qed.

Lemma keeps_one {A} (p : list string) (m : M A) (e : World -> Event) :
  (forall w, fs (snd (m w)) !! p = fs w !! p) ->
  (forall w, log (snd (m w)) = log w \/ log (snd (m w)) = (log w ++ [e w])%list) ->
  (forall w, spares p (e w)) ->
  keeps p m.
Proof.
  intros Hfs Hlog He w _. split; [apply Hfs|].
  destruct (Hlog w) as [H|H].
  - exists []. by rewrite app_nil_r.
  - exists [e w]. split; [done|]. by repeat constructor.
Qed.

Lemma keeps_ret {A} (p : list string) (a : A) : keeps p (ret a).
Proof. by apply keeps_pure. Qed.

Lemma keeps_raise {A} (p : list string) (e : Exn) : keeps p (raise (A := A) e).
Proof. by apply keeps_pure. Qed.

Lemma keeps_lift {A} (p : list string) (r : Res A) : keeps p (lift r).
Proof. by apply keeps_pure. Qed.

Lemma keeps_bind {A B} (p : list string) (m : M A) (k : A -> M B) :
  keeps p m -> (forall a, keeps p (k a)) -> keeps p (x <- m ;; k x).
Proof.
  intros Hm Hk w Hp. destruct (Hm w Hp) as (Hfs & evs & Hlog & Hev). unfold bind.
  destruct (m w) as [[a|e] w1]; cbn [snd] in *; [|eauto].
  destruct (Hk a w1) as (Hfs' & evs' & Hlog' & Hev'); [by rewrite Hfs|].
  split; [congruence|].
  exists (evs ++ evs')%list. rewrite Hlog', Hlog, app_assoc.
  split; [done|]. by apply Forall_app.
Qed.

Lemma keeps_when (p : list string) (b : bool) (m : M unit) :
  keeps p m -> keeps p (when b m).
Proof. destruct b; [done|]. intros _. apply keeps_ret. Qed.

Lemma keeps_path_exists (p q : list string) : keeps p (path_exists q).
Proof. by apply keeps_pure. Qed.

Lemma keeps_isfile (p q : list string) : keeps p (isfile q).
Proof. by apply keeps_pure. Qed.

Lemma keeps_getcwd (p : list string) : keeps p getcwd.
Proof. by apply keeps_pure. Qed.

Lemma keeps_chdir (p d : list string) : keeps p (chdir d).
Proof.
  apply keeps_pure. intros w. unfold chdir. by destruct (fs w !! d) as [[]|].
Qed.

Lemma keeps_load (p q : list string) : keeps p (load q).
Proof.
  apply keeps_pure. intros w. unfold load. by destruct (fs w !! q).
Qed.

Lemma keeps_save (p q : list string) (c : Content) : q <> p -> keeps p (save q c).
Proof.
  intros Hne. apply (keeps_one p _ (fun _ => Saved q c)); [| |done].
  - intros w. unfold save.
    destruct (fs w !! q) as [[]|]; cbn; by rewrite ?lookup_insert_ne.
  - intros w. unfold save. destruct (fs w !! q) as [[]|]; cbn; auto.
Qed.

Lemma keeps_append (p q : list string) (s : string) : q <> p -> keeps p (append q s).
Proof.
  intros Hne.
  apply (keeps_one p _ (fun w => Saved q match fs w !! q with
                                         | Some (File c) => Appended c s
                                         | _ => Text s
                                         end)); [| |done].
  - intros w. unfold append.
    destruct (fs w !! q) as [[]|]; cbn; by rewrite ?lookup_insert_ne.
  - intros w. unfold append. destruct (fs w !! q) as [[]|]; cbn; auto.
Qed.

Lemma keeps_remove (p q : list string) : q <> p -> keeps p (remove q).
Proof.
  intros Hne. apply (keeps_one p _ (fun _ => Removed q)); [| |done].
  - intros w. unfold remove.
    destruct (fs w !! q) as [[]|]; cbn; by rewrite ?lookup_delete_ne.
  - intros w. unfold remove. destruct (fs w !! q) as [[]|]; cbn; auto.
Qed.

Lemma keeps_replace (p src dst : list string) :
  src <> p -> dst <> p -> keeps p (replace src dst).
Proof.
  intros Hs Hd. apply (keeps_one p _ (fun _ => Replaced src dst)); [| |done].
  - intros w. unfold replace. destruct (fs w !! src); cbn; [|done].
    by rewrite lookup_insert_ne, lookup_delete_ne.
  - intros w. unfold replace. destruct (fs w !! src); cbn; auto.
Qed.

Lemma mkdir_exist_ok_keeps (p d : list string) (f f' : gmap (list string) Node) :
  mkdir_exist_ok (Ok f) d = Ok f' -> is_Some (f !! p) -> f' !! p = f !! p.
Proof.
  unfold mkdir_exist_ok. cbn [rbind].
  destruct (f !! d) as [[]|] eqn:Hd; intros [= <-]; [done|].
  intros [n Hn]. rewrite lookup_insert_ne; [done|]. congruence.
Qed.

Lemma fold_mkdir_raise (ds : list (list string)) (e : Exn) :
  fold_left mkdir_exist_ok ds (Raise e) = Raise e.
Proof. induction ds as [|d ds IH]; [done|]. exact IH. Qed.

Lemma keeps_makedirs (p d : list string) : keeps p (makedirs d).
Proof.
  intros w Hp. unfold makedirs.
  assert (H : forall ds f f', is_Some (f !! p) ->
            fold_left mkdir_exist_ok ds (Ok f) = Ok f' -> f' !! p = f !! p).
  { induction ds as [|x ds IH]; intros f f' Hf; cbn [fold_left].
    - by intros [= <-].
    - destruct (mkdir_exist_ok (Ok f) x) as [f1|e] eqn:H1.
      + intros H2. rewrite <- (mkdir_exist_ok_keeps p x f f1 H1 Hf).
        apply IH; [|done]. by rewrite (mkdir_exist_ok_keeps p x f f1 H1 Hf).
      + by rewrite fold_mkdir_raise. }
  destruct (fold_left _ _ _) as [f'|e] eqn:Hfold; cbn.
  - split; [by apply (H _ _ _ Hp Hfold)|]. exists []. by rewrite app_nil_r.
  - split; [done|]. exists []. by rewrite app_nil_r.
Qed.

Lemma write_outputs_other (cmd : Command) (ps : list (list string))
    (f : gmap (list string) Node) (p : list string) :
  p ∉ ps -> write_outputs cmd ps f !! p = f !! p.
Proof.
  unfold write_outputs. revert f. induction ps as [|q ps IH]; intros f Hp; [done|].
  cbn [fold_left]. rewrite IH by set_solver.
  apply lookup_insert_ne. set_solver.
Qed.

Section WellBehaved.
Variable env : Command -> list string -> gmap (list string) Node -> ToolResult.
Hypothesis env_ok : well_behaved env.

Lemma keeps_run (p : list string) (cmd : Command) (check : bool) :
  (forall d, p ∉ outputs d cmd) -> keeps p (run env cmd check).
Proof.
  intros Hp.
  apply (keeps_one p _ (fun w => Ran cmd (cwd w) (returncode (env cmd (cwd w) (fs w)))));
    [| |intros w; apply Hp].
  - intros w. unfold run.
    assert (p ∉ created (env cmd (cwd w) (fs w)))
      by (intros Hin; apply (Hp (cwd w)); exact (env_ok cmd (cwd w) (fs w) p Hin)).
    destruct (check && _); cbn; by apply write_outputs_other.
  - intros w. unfold run. right. by destruct (check && _).
Qed.

Lemma keeps_run_fsl (p : list string) (cmd : Command) :
  (forall d, p ∉ outputs d cmd) -> keeps p (run_fsl env cmd).
Proof.
  intros Hp.
  apply (keeps_one p _ (fun w => Ran cmd (cwd w) (returncode (env cmd (cwd w) (fs w)))));
    [| |intros w; apply Hp].
  - intros w. unfold run_fsl.
    assert (p ∉ created (env cmd (cwd w) (fs w)))
      by (intros Hin; apply (Hp (cwd w)); exact (env_ok cmd (cwd w) (fs w) p Hin)).
    destruct (_ =? 0); cbn; by apply write_outputs_other.
  - intros w. unfold run_fsl. right. by destruct (_ =? 0).
Qed.

End WellBehaved.

(** *** Which exceptions a computation can raise *)

Lemma raises_only_bind {A B} (ok : Exn -> Prop) (m : M A) (k : A -> M B) :
  raises_only ok m -> (forall a, raises_only ok (k a)) ->
  raises_only ok (x <- m ;; k x).
Proof.
  intros Hm Hk w e. unfold bind. specialize (Hm w).
  destruct (m w) as [[a|e'] w1]; cbn [fst] in *.
  - apply Hk.
  - intros [= <-]. by apply Hm.
Qed.

Lemma raises_only_ret {A} (ok : Exn -> Prop) (a : A) : raises_only ok (ret a).
Proof. intros w e [=]. Qed.

Lemma raises_only_getcwd (ok : Exn -> Prop) : raises_only ok getcwd.
Proof. intros w e [=]. Qed.

Lemma raises_only_chdir (ok : Exn -> Prop) (d : list string) :
  ok (FileNotFoundError d) -> raises_only ok (chdir d).
Proof.
  intros Hok w e. unfold chdir.
  destruct (fs w !! d) as [[]|]; cbn; intros [= <-]; done.
Qed.

Lemma raises_only_load (ok : Exn -> Prop) (p : list string) :
  ok (FileNotFoundError p) -> raises_only ok (load p).
Proof.
  intros Hok w e. unfold load. destruct (fs w !! p); cbn; intros [= <-]; done.
Qed.

Lemma raises_only_save (ok : Exn -> Prop) (p : list string) (c : Content) :
  ok (IsADirectoryError p) -> raises_only ok (save p c).
Proof.
  intros Hok w e. unfold save.
  destruct (fs w !! p) as [[]|]; cbn; intros [= <-]; done.
Qed.

Lemma raises_only_run_unchecked (ok : Exn -> Prop)
    (env : Command -> list string -> gmap (list string) Node -> ToolResult)
    (cmd : Command) :
  raises_only ok (run env cmd false).
Proof. intros w e. unfold run. cbn. intros [=]. Qed.

Lemma raises_only_run_fsl (ok : Exn -> Prop)
    (env : Command -> list string -> gmap (list string) Node -> ToolResult)
    (cmd : Command) :
  ok RuntimeError -> raises_only ok (run_fsl env cmd).
Proof.
  intros Hok w e. unfold run_fsl. destruct (_ =? 0); cbn; intros [= <-]; done.
Qed.

(** *** The working directory *)

(** [m] leaves the working directory where it was. *)
Definition stays {A} (m : M A) : Prop := forall w, cwd (snd (m w)) = cwd w.

Lemma stays_load (p : list string) : stays (load p).
Proof. intros w. unfold load. by destruct (fs w !! p). Qed.

Lemma stays_save (p : list string) (c : Content) : stays (save p c).
Proof. intros w. unfold save. by destruct (fs w !! p) as [[]|]. Qed.

Lemma stays_run (env : Command -> list string -> gmap (list string) Node -> ToolResult)
    (cmd : Command) (check : bool) : stays (run env cmd check).
Proof. intros w. unfold run. by destruct (check && _). Qed.

Lemma stays_run_fsl (env : Command -> list string -> gmap (list string) Node -> ToolResult)
    (cmd : Command) : stays (run_fsl env cmd).
Proof. intros w. unfold run_fsl. by destruct (_ =? 0). Qed.

Lemma chdir_ok (d : list string) (w w' : World) :
  chdir d w = (Ok tt, w') -> cwd w' = d /\ fs w' = fs w /\ log w' = log w.
Proof.
  unfold chdir. destruct (fs w !! d) as [[]|]; intros [= <-]; done.
Qed.

End OsFacts.
Import OsFacts.

(** ** Facts about [distcorr_warps.py] *)

Module DistcorrWarpsFacts.
Import DistcorrWarps.

Local Open Scope py_scope.

(** *** [find_field_maps] *)

Lemma path_leb_total (p q : list string) : path_leb p q = true \/ path_leb q p = true.
Proof.
  revert q. induction p as [|a p IH]; intros q; [by left|].
  destruct q as [|b q]; [by right|]. cbn [path_leb].
  rewrite (String.compare_antisym b a).
  destruct (String.compare a b); cbn [CompOpp]; auto.
Qed.

#[local] Instance path_le_total : Total (fun p q => Is_true (path_leb p q)).
Proof.
  intros p q. destruct (path_leb_total p q) as [H|H]; rewrite H; cbn; auto.
Qed.

(** [sorted] orders its argument and neither adds nor drops an entry. *)
Lemma sorted_spec (l : list (list string)) :
  Sorted (fun p q => Is_true (path_leb p q)) (sorted l) /\ sorted l ≡ₚ l.
Proof.
  split; [apply Sorted_merge_sort, _|apply merge_sort_Permutation].
Qed.

Lemma last_two_snoc {A} (front : list A) (x y : A) :
  last_two (front ++ [x; y]) = [x; y].
Proof.
  unfold last_two. apply drop_app_length'. rewrite length_app. cbn. lia.
Qed.

Lemma last_two_inv {A} (l : list A) (x y : A) :
  last_two l = [x; y] -> exists front, l = (front ++ [x; y])%list.
Proof.
  unfold last_two. intros H. exists (take (length l - 2) l).
  by rewrite <- H, take_drop.
Qed.

Lemma last_two_short {A} (l : list A) :
  (length l < 2)%nat -> last_two l = l.
Proof.
  unfold last_two. intros H. replace (length l - 2)%nat with 0%nat by lia. done.
Qed.

Lemma last_two_length {A} (l : list A) : (length (last_two l) <= 2)%nat.
Proof. unfold last_two. rewrite length_drop. lia. Qed.

(** C10.  A pair returned by [find_field_maps] is built from the last two
    entries, in sorted order, of the field-map directories found below the
    subject's B session: the PA file from the one of them that holds it
    (the first being tried first), the AP name from the other.  When
    neither holds the PA file the call raises, and so it does when fewer
    than two directories are found. *)
Theorem find_field_maps_from_last_two (f : gmap (list string) Node)
    (study_dir : list string) (subject_number : string) :
  let found := sorted (glob_field_maps f (scan_dir study_dir subject_number)) in
  (forall pa ap,
     find_field_maps f study_dir subject_number = Ok (pa, ap) ->
     exists front d0 d1,
       found = (front ++ [d0; d1])%list /\
       ((has f (join d0 (pa_file subject_number)) = true /\
         pa = join d0 (pa_file subject_number) /\
         ap = join d1 (ap_file subject_number)) \/
        (has f (join d0 (pa_file subject_number)) = false /\
         has f (join d1 (pa_file subject_number)) = true /\
         pa = join d1 (pa_file subject_number) /\
         ap = join d0 (ap_file subject_number)))) /\
  (forall front d0 d1,
     found = (front ++ [d0; d1])%list ->
     has f (join d0 (pa_file subject_number)) = false ->
     has f (join d1 (pa_file subject_number)) = false ->
     find_field_maps f study_dir subject_number = Raise (UnboundLocalError "pa_dir")) /\
  ((length (glob_field_maps f (scan_dir study_dir subject_number)) < 2)%nat ->
   exists e, find_field_maps f study_dir subject_number = Raise e).
Proof.
  intros found. unfold find_field_maps, field_map_dirs. fold found.
  split; [|split].
  - intros pa ap.
    pose proof (last_two_length found) as Hlen.
    destruct (last_two found) as [|d0 [|d1 [|d2 rest]]] eqn:Hlast;
      cbn [lookup list_lookup length] in *; try lia.
    + discriminate.
    + destruct (has f (join d0 _)); discriminate.
    + apply last_two_inv in Hlast as [front Hfront].
      destruct (has f (join d0 _)) eqn:H0.
      * intros [= <- <-]. exists front, d0, d1. split; [done|]. left. done.
      * destruct (has f (join d1 _)) eqn:H1; [|discriminate].
        intros [= <- <-]. exists front, d0, d1. split; [done|]. right. done.
  - intros front d0 d1 -> H0 H1. rewrite last_two_snoc.
    cbn [lookup list_lookup]. by rewrite H0, H1.
  - intros Hshort.
    assert (Hlen : (length found < 2)%nat).
    { unfold found. by rewrite (proj2 (sorted_spec _)). }
    rewrite last_two_short by done.
    destruct found as [|d0 [|d1 rest]]; cbn [lookup list_lookup length] in *.
    + eauto.
    + destruct (has f (join d0 _)); eauto.
    + lia.
Qed.

(** *** What [main] logs *)

Lemma emits_if_stale {A} (P : Event -> Prop) (Q : A -> Prop) (p : list string)
    (also : bool) (body otherwise : M A) :
  (also = true -> emits P Q body) -> emits P Q otherwise ->
  emits P Q (if_stale p also body otherwise).
Proof.
  intros Hb Ho. unfold if_stale.
  eapply emits_bind; [apply emits_path_exists|]. intros b _.
  destruct also; [|by rewrite andb_false_r].
  destruct (negb b || force_refresh); cbn; auto.
Qed.

Lemma emits_deref {A} (P : Event -> Prop) (name : string) (v : option A) :
  emits P (fun a => v = Some a) (deref name v).
Proof.
  destruct v as [a|]; [by apply emits_ret|apply emits_raise].
Qed.

Lemma emits_load_grid (P : Event -> Prop) (g : Grid) :
  emits P (fun _ => True) (load_grid g).
Proof.
  destruct g; cbn [load_grid]; [apply emits_load|].
  eapply emits_bind; [apply emits_load|]. intros _ _. apply emits_load.
Qed.

Lemma emits_resample_to (P : Event -> Prop) (t : Transform) (src : list string)
    (ref : Grid) (out : list string) :
  P (Saved out (Resampled t src ref)) ->
  emits P (fun _ => True) (resample_to t src ref out).
Proof.
  intros HP. unfold resample_to.
  eapply emits_bind; [apply emits_load|]. intros _ _.
  eapply emits_bind; [apply emits_load_grid|]. intros _ _.
  by apply emits_save.
Qed.

Lemma emits_from_flirt (P : Event -> Prop) (mat src ref : list string) :
  emits P (fun v => v = FromFlirt mat src ref) (from_flirt mat src ref).
Proof.
  unfold from_flirt.
  do 3 (eapply emits_bind; [apply emits_load|]; intros _ _).
  by apply emits_ret.
Qed.

Lemma emits_from_mcflirt (P : Event -> Prop) (mats src ref : list string) :
  emits P (fun v => v = FromMcflirt mats src ref) (from_mcflirt mats src ref).
Proof.
  unfold from_mcflirt.
  do 3 (eapply emits_bind; [apply emits_load|]; intros _ _).
  by apply emits_ret.
Qed.

Lemma emits_from_fnirt (P : Event -> Prop) (coefficients src ref : list string)
    (ic : bool) (cj : Q * Q) :
  emits P (fun v => v = FromFnirt coefficients src ref ic cj)
        (from_fnirt coefficients src ref ic cj).
Proof.
  unfold from_fnirt.
  do 3 (eapply emits_bind; [apply emits_load|]; intros _ _).
  by apply emits_ret.
Qed.

(** One step of a computation whose events are all expected whatever
    the values involved. *)
Ltac emits_step :=
  lazymatch goal with
  | |- emits _ _ (ret _) => apply emits_ret; exact I
  | |- emits _ _ (raise _) => apply emits_raise
  | |- emits _ _ (lift _) => apply emits_lift
  | |- emits _ _ (when _ _) => apply emits_when
  | |- emits _ _ (path_exists _) => apply emits_path_exists
  | |- emits _ _ (isfile _) => apply emits_isfile
  | |- emits _ _ getcwd => apply emits_getcwd
  | |- emits _ _ (chdir _) => apply emits_chdir
  | |- emits _ _ (load _) => apply emits_load
  | |- emits _ _ (binarise_image _) => apply emits_load
  | |- emits _ _ (makedirs _) => apply emits_makedirs
  | |- emits _ _ (save _ _) => apply emits_save; exact I
  | |- emits _ _ (append _ _) => apply emits_append; [intros ?; exact I | exact I]
  | |- emits _ _ (remove _) => apply emits_remove; exact I
  | |- emits _ _ (replace _ _) => apply emits_replace; exact I
  | |- emits _ _ (run _ _ _) => apply emits_run; intros ? ?; exact I
  | |- emits _ _ (run_fsl _ _) => apply emits_run_fsl; intros ? ?; exact I
  | |- emits _ _ (Os.bind _ _) =>
      eapply (emits_bind _ (fun _ => True) (fun _ => True)); [|intros ? _]
  end.

Section Emits.
Variable env : Command -> list string -> gmap (list string) Node -> ToolResult.
Variable grid_size : list string -> nat * nat * nat.
Variable sb : list string.
Variable target : string.

Local Abbreviation P := (expected sb target).

Lemma emits_generate_asl2struct_initial (asl outdir s sbet : list string) :
  emits P (fun _ => True) (generate_asl2struct_initial env asl outdir s sbet).
Proof. unfold generate_asl2struct_initial. repeat emits_step. Qed.

Lemma emits_generate_gdc_warp (asl_vol0 coeffs d : list string) :
  emits P (fun _ => True) (generate_gdc_warp env asl_vol0 coeffs d).
Proof. unfold generate_gdc_warp. repeat emits_step. Qed.

Lemma emits_generate_topup_params (p : list string) :
  emits P (fun _ => True) (generate_topup_params p).
Proof. unfold generate_topup_params. repeat emits_step. Qed.

Lemma emits_generate_fmaps (sefms params : list string) (config : string)
    (d : list string) :
  emits P (fun _ => True) (generate_fmaps env sefms params config d).
Proof. unfold generate_fmaps. cbv zeta. repeat emits_step. Qed.

Lemma emits_generate_epidc_warp (a s sbet m wm : list string) (t : Transform)
    (f1 f2 f3 d : list string) :
  emits P (fun _ => True) (generate_epidc_warp env a s sbet m wm t f1 f2 f3 d).
Proof. unfold generate_epidc_warp. cbv zeta. repeat emits_step. Qed.

Lemma emits_generate_asl_mask (sbrain asl : list string) (t : Transform) :
  emits P (fun c => c = Mask (Inverse t) sbrain (GridOf asl))
        (generate_asl_mask sbrain asl t).
Proof.
  unfold generate_asl_mask.
  do 2 (eapply emits_bind; [apply emits_load|]; intros _ _).
  by apply emits_ret.
Qed.

Lemma emits_generate_wmmask (aparc : list string) :
  emits P (fun c => c = WmMask aparc) (generate_wmmask aparc).
Proof.
  unfold generate_wmmask.
  eapply emits_bind; [apply emits_load|]; intros _ _.
  by apply emits_ret.
Qed.

Lemma emits_create_ti_image (asl : list string) (tis : list Q) (sliceband : Z)
    (slicedt : Q) (outname : list string) :
  emits P (fun _ => True) (create_ti_image grid_size asl tis sliceband slicedt outname).
Proof. unfold create_ti_image. repeat emits_step. Qed.

Lemma emits_find_field_maps (study_dir : list string) (sub_id : string) :
  emits P (fun _ => True) (fun w => lift (find_field_maps (fs w) study_dir sub_id) w).
Proof. by apply emits_silent. Qed.

End Emits.

(** A saved resampling is expected when it is a row of the table. *)
Ltac expected_row :=
  cbn [expected resamplings In]; repeat (first [left; reflexivity | right]).

(** Steps whose returned value does not matter for what is logged later. *)
Ltac emits_auto :=
  repeat
    (first
       [ emits_step
       | apply emits_generate_asl2struct_initial
       | apply emits_generate_gdc_warp
       | apply emits_generate_topup_params
       | apply emits_generate_fmaps
       | apply emits_generate_epidc_warp
       | apply emits_create_ti_image
       | apply emits_find_field_maps
       | apply emits_resample_to; expected_row
       | apply emits_if_stale; [intros ?|]
       | eapply emits_weaken; [apply emits_deref|done]
       | eapply emits_weaken; [apply emits_from_flirt|done]
       | eapply emits_weaken; [apply emits_from_mcflirt|done]
       | eapply emits_weaken; [apply emits_from_fnirt|done] ]).

Ltac emits_next := eapply (emits_bind _ (fun _ => True)); [emits_auto|]; intros ? _.

Section MainEmits.
Variable env : Command -> list string -> gmap (list string) Node -> ToolResult.
Variable grid_size : list string -> nat * nat * nat.

(** Whatever the files, the programs and the target, a resampling that
    [main] saves is a row of [resamplings]. *)
Lemma main_emits (study_dir : list string) (sub_id : string)
    (grads : option (list string)) (target : string) :
  emits (expected (join study_dir [sub_id]) target) (fun _ => True)
        (main env grid_size study_dir sub_id grads target).
Proof.
  unfold main. cbv zeta. set (sb := join study_dir [sub_id]).
  eapply (emits_bind _ (fun _ => True)); [destruct grads; emits_auto|]; intros coeffs _.
  do 6 emits_next.
  do 3 emits_next.
  eapply emits_bind; [apply emits_from_mcflirt|]; intros ? ->.
  emits_next.
  eapply emits_bind; [apply emits_from_fnirt|]; intros ? ->.
  do 7 emits_next.
  (* gdc_tis_vol1 *)
  eapply (emits_bind _ (fun _ => True)).
  { apply emits_if_stale; [intros Hasl|emits_auto]. rewrite Hasl.
    eapply emits_bind; [apply emits_deref|]. intros img [= <-]. emits_auto. }
  intros unreg_img _.
  do 2 emits_next.
  eapply emits_bind; [apply emits_from_flirt|]; intros ? ->.
  (* mask *)
  eapply (emits_bind _ (fun _ => True)).
  { apply emits_if_stale; [intros _|emits_auto].
    eapply emits_bind; [apply emits_generate_asl_mask|]. intros ? ->. emits_auto. }
  intros _ _.
  emits_next.
  (* wmmask *)
  eapply (emits_bind _ (fun _ => True)).
  { apply emits_if_stale; [intros _|emits_auto].
    eapply emits_bind; [apply emits_generate_wmmask|]. intros ? ->. emits_auto. }
  intros _ _.
  emits_next.
  eapply emits_bind; [apply emits_from_fnirt|]; intros ? ->.
  (* epi_dc, with the structural-to-ASL registration when the target is asl *)
  eapply (emits_bind _ (fun v => v = epi_dc sb target)).
  { unfold epi_dc. destruct (String.eqb target "asl").
    - eapply emits_bind; [apply emits_from_flirt|]. intros ? ->. by apply emits_ret.
    - by apply emits_ret. }
  intros ? ->.
  (* the corrected ASL series *)
  eapply (emits_bind _ (fun v => v = None \/
            v = Some (chain [asl_mc sb; gdc sb; epi_dc sb target]))).
  { apply emits_if_stale; [intros _|by apply emits_ret; left].
    eapply (emits_bind _ (fun _ => True)); [emits_auto|]. intros _ _.
    apply emits_ret. by right. }
  intros c Hc.
  emits_next.
  (* the scaling factors *)
  eapply (emits_bind _ (fun _ => True)).
  { apply emits_if_stale; [intros _|emits_auto].
    destruct Hc as [->| ->]; emits_auto. }
  intros _ _.
  do 2 emits_next.
  (* the timing image in T1 space *)
  apply emits_if_stale; [intros _|emits_auto].
  eapply emits_bind; [apply emits_from_flirt|]. intros ? ->. emits_auto.
Qed.

End MainEmits.

(** *** What [main] leaves alone *)

Lemma keeps_if_stale_self {A} (p : list string) (also : bool) (body otherwise : M A) :
  keeps p otherwise -> keeps p (if_stale p also body otherwise).
Proof.
  intros Ho w Hp. unfold if_stale, bind, path_exists.
  rewrite bool_decide_true by done. cbn. apply Ho, Hp.
Qed.

Lemma keeps_if_stale_other {A} (p q : list string) (also : bool) (body otherwise : M A) :
  keeps p body -> keeps p otherwise -> keeps p (if_stale q also body otherwise).
Proof.
  intros Hb Ho. unfold if_stale.
  apply keeps_bind; [apply keeps_path_exists|]. intros b.
  by destruct ((negb b || force_refresh) && also).
Qed.

Lemma keeps_deref {A} (p : list string) (name : string) (v : option A) :
  keeps p (deref name v).
Proof. destruct v; [apply keeps_ret|apply keeps_raise]. Qed.

Lemma keeps_load_grid (p : list string) (g : Grid) : keeps p (load_grid g).
Proof.
  destruct g; cbn [load_grid]; [apply keeps_load|].
  apply keeps_bind; [apply keeps_load|]. intros _. apply keeps_load.
Qed.

Lemma keeps_find_field_maps (p study_dir : list string) (sub_id : string) :
  keeps p (fun w => lift (find_field_maps (fs w) study_dir sub_id) w).
Proof. by apply keeps_pure. Qed.

Lemma last_app_nonempty {A} (l1 l2 : list A) (x : A) :
  last (l1 ++ x :: l2) = last (x :: l2).
Proof.
  rewrite last_app. destruct (last (x :: l2)) eqn:H; [done|].
  by apply last_None in H.
Qed.

Lemma eqb_asl_structural : String.eqb "asl" "structural" = false.
Proof. reflexivity. Qed.

Lemma eqb_structural_asl : String.eqb "structural" "asl" = false.
Proof. reflexivity. Qed.

(** Two paths below the subject directory with different tails, or two
    paths with different last components, are different. *)
Ltac paths_differ :=
  unfold asl_vol0, t1_asl_grid, t1_asl_grid_mask, gdc_path, pa_ap_sefms,
    gdc_tis_vol1_name, asl2struct_initial_path, mask_name, gdc_unreg_img_brain,
    wmmask, epi_dc_path, asl_outpath, calib_outpath, sfs_outpath, reg_est_t1_name,
    ti_asl, ti_t1, topup_params, fmap, fmapmag, fmapmagbrain, distcorr_out_dir,
    asl_out_dir, calib_out_dir, t1_asl_dir, distcorr_dir, reg_dir, t1_dir, asl_dir,
    join;
  rewrite ?String.eqb_refl, ?eqb_asl_structural, ?eqb_structural_asl;
  repeat match goal with
         | H : String.eqb _ _ = false |- _ => rewrite H
         end;
  rewrite <- ?app_assoc; cbn [app];
  let H := fresh in
  intros H;
  first [ apply app_inv_head in H; discriminate H
        | apply (f_equal (@last string)) in H;
          rewrite ?last_app_nonempty in H; discriminate H ].

Ltac outputs_differ :=
  let d := fresh "d" in
  intros d; unfold outputs;
  repeat (apply not_elem_of_cons; split; [apply not_eq_sym; paths_differ|]);
  apply not_elem_of_nil.

Ltac keeps_step env_ok :=
  lazymatch goal with
  | |- keeps _ (ret _) => apply keeps_ret
  | |- keeps _ (raise _) => apply keeps_raise
  | |- keeps _ (lift _) => apply keeps_lift
  | |- keeps _ (when _ _) => apply keeps_when
  | |- keeps _ (path_exists _) => apply keeps_path_exists
  | |- keeps _ (isfile _) => apply keeps_isfile
  | |- keeps _ getcwd => apply keeps_getcwd
  | |- keeps _ (chdir _) => apply keeps_chdir
  | |- keeps _ (load _) => apply keeps_load
  | |- keeps _ (load_grid _) => apply keeps_load_grid
  | |- keeps _ (binarise_image _) => apply keeps_load
  | |- keeps _ (makedirs _) => apply keeps_makedirs
  | |- keeps _ (deref _ _) => apply keeps_deref
  | |- keeps _ (save _ _) => apply keeps_save; paths_differ
  | |- keeps _ (append _ _) => apply keeps_append; paths_differ
  | |- keeps _ (remove _) => apply keeps_remove; paths_differ
  | |- keeps _ (replace _ _) => apply keeps_replace; paths_differ
  | |- keeps _ (run _ _ _) => apply (keeps_run _ env_ok); outputs_differ
  | |- keeps _ (run_fsl _ _) => apply (keeps_run_fsl _ env_ok); outputs_differ
  | |- keeps _ (if_stale _ _ _ _) =>
      first [ apply keeps_if_stale_self | apply keeps_if_stale_other ]
  | |- keeps _ (Os.bind _ _) => apply keeps_bind; [|intros ?]
  | |- keeps _ (fun w => lift _ w) => apply keeps_find_field_maps
  | |- keeps _ (match ?v with Some _ => _ | None => _ end) => destruct v
  | |- keeps _ (if ?b then _ else _) => destruct b
  | |- keeps _ (resample_to _ _ _ _) => unfold resample_to
  | |- keeps _ (from_flirt _ _ _) => unfold from_flirt
  | |- keeps _ (from_mcflirt _ _ _) => unfold from_mcflirt
  | |- keeps _ (from_fnirt _ _ _ _ _) => unfold from_fnirt
  | |- keeps _ (generate_asl2struct_initial _ _ _ _ _) => unfold generate_asl2struct_initial
  | |- keeps _ (generate_gdc_warp _ _ _ _) => unfold generate_gdc_warp
  | |- keeps _ (generate_wmmask _) => unfold generate_wmmask
  | |- keeps _ (generate_topup_params _) => unfold generate_topup_params
  | |- keeps _ (generate_fmaps _ _ _ _ _) => unfold generate_fmaps; cbv zeta
  | |- keeps _ (generate_asl_mask _ _ _) => unfold generate_asl_mask
  | |- keeps _ (generate_epidc_warp _ _ _ _ _ _ _ _ _ _ _) =>
      unfold generate_epidc_warp; cbv zeta
  | |- keeps _ (create_ti_image _ _ _ _ _ _) => unfold create_ti_image
  end.

Section MainKeeps.
Variable env : Command -> list string -> gmap (list string) Node -> ToolResult.
Hypothesis env_ok : well_behaved env.
Variable grid_size : list string -> nat * nat * nat.

Lemma main_keeps (study_dir : list string) (sub_id : string)
    (grads : option (list string)) (target : string) (p : list string) :
  In p (guarded (join study_dir [sub_id]) target) ->
  keeps p (main env grid_size study_dir sub_id grads target).
Proof.
  unfold main. cbv zeta. generalize (join study_dir [sub_id]). intros sb Hp.
  destruct (String.eqb target "asl") eqn:Hasl;
    [apply String.eqb_eq in Hasl; subst target; rewrite ?eqb_asl_structural
    |destruct (String.eqb target "structural") eqn:Hstr;
       [apply String.eqb_eq in Hstr; subst target|]].
  - cbn [guarded In] in Hp.
    repeat (destruct Hp as [<-|Hp]; [repeat keeps_step env_ok|]). done.
  - cbn [guarded In] in Hp.
    repeat (destruct Hp as [<-|Hp]; [repeat keeps_step env_ok|]). done.
  - cbn [guarded In] in Hp.
    repeat (destruct Hp as [<-|Hp]; [repeat keeps_step env_ok|]). done.
Qed.

End MainKeeps.

(** *** The chains behind the output products *)

Lemma emitted_resampling
    (env : Command -> list string -> gmap (list string) Node -> ToolResult)
    (grid_size : list string -> nat * nat * nat)
    (study_dir : list string) (sub_id : string) (grads : option (list string))
    (target : string) (w : World) :
  exists evs,
    log (snd (main env grid_size study_dir sub_id grads target w)) = (log w ++ evs)%list /\
    forall p t src ref,
      Saved p (Resampled t src ref) ∈ evs ->
      In (p, t, src, ref) (resamplings (join study_dir [sub_id]) target).
Proof.
  destruct (main_emits env grid_size study_dir sub_id grads target w)
    as (evs & Hlog & Hev & _).
  exists evs. split; [done|]. intros p t src ref Hin.
  rewrite Forall_forall in Hev. exact (Hev _ Hin).
Qed.

Lemma chain_elements_epi_dc (sb : list string) (target : string) :
  chain_elements (epi_dc sb target)
  = epi_dc_warp sb target
      :: (if String.eqb target "asl" then [struct2asl sb target] else []).
Proof. unfold epi_dc. by destruct (String.eqb target "asl"). Qed.

(** C1, as the code has it.  Whatever the files, the programs and the
    target: when [main] saves the corrected ASL series or the combined
    scaling factors, the chain is the per-timepoint motion correction
    (rebased to the first ASL volume), then the gradient-distortion warp,
    then the EPI-distortion warp (with the structural-to-ASL registration
    after it when the target is asl); when it saves the corrected
    calibration image, the chain starts with the single calibration-to-ASL
    registration instead, followed by the same two warps; and every
    resampling [main] saves applies one of the six sequences listed, in
    each of which a gradient warp that occurs with an EPI warp comes
    directly before it and after the motion or registration step. *)
Theorem output_chains_in_order
    (env : Command -> list string -> gmap (list string) Node -> ToolResult)
    (grid_size : list string -> nat * nat * nat)
    (study_dir : list string) (sub_id : string) (grads : option (list string))
    (target : string) (w : World) :
  exists evs,
    log (snd (main env grid_size study_dir sub_id grads target w)) = (log w ++ evs)%list /\
    forall p t src ref,
      Saved p (Resampled t src ref) ∈ evs ->
      let sb := join study_dir [sub_id] in
      let epi := epi_dc_warp sb target
                   :: (if String.eqb target "asl" then [struct2asl sb target] else []) in
      (p = asl_outpath sb target \/ p = sfs_outpath sb target ->
       chain_elements t = asl2calib_mc sb :: calib2asl0 sb :: gdc sb :: epi) /\
      (p = calib_outpath sb ->
       chain_elements t = calib2asl0 sb :: gdc sb :: epi) /\
      In (chain_elements t)
         [ [Identity];
           [gdc sb];
           asl2calib_mc sb :: calib2asl0 sb :: gdc sb :: epi;
           calib2asl0 sb :: gdc sb :: epi;
           Volume (asl_mc sb) 0 :: gdc sb :: epi;
           [FromFlirt (join (distcorr_dir sb) ["asl2struct.mat"])
                      (tis_stcorr sb) (struct sb)] ].
Proof.
  destruct (emitted_resampling env grid_size study_dir sub_id grads target w)
    as (evs & Hlog & Hrows).
  exists evs. split; [done|]. intros p t src ref Hin.
  specialize (Hrows p t src ref Hin). revert Hrows.
  generalize (join study_dir [sub_id]). intros sb Hrow. cbv zeta.
  rewrite <- (chain_elements_epi_dc sb target).
  cbn [resamplings In] in Hrow.
  assert (Hd : forall a b : list string, a <> b -> a = b -> forall X : Prop, X)
    by (intros a b Hne Heq; by destruct Hne).
  destruct Hrow as [Hrow|[Hrow|[Hrow|[Hrow|[Hrow|[Hrow|[Hrow|[]]]]]]]];
    injection Hrow as <- <- <- <-.
  - split; [|split].
    + intros [H|H]; revert H;
        destruct (String.eqb target "structural") eqn:Hs; paths_differ.
    + intros H; revert H. paths_differ.
    + cbn. auto.
  - split; [|split].
    + intros [H|H]; revert H;
        destruct (String.eqb target "structural") eqn:Hs; paths_differ.
    + intros H; revert H.
      destruct (String.eqb target "structural") eqn:Hs; paths_differ.
    + cbn. auto.
  - split; [|split].
    + intros _. cbn. by rewrite app_nil_r.
    + intros H; revert H.
      destruct (String.eqb target "structural") eqn:Hs; paths_differ.
    + cbn. rewrite app_nil_r. auto.
  - split; [|split].
    + intros [H|H]; revert H;
        destruct (String.eqb target "structural") eqn:Hs; paths_differ.
    + intros _. cbn. by rewrite app_nil_r.
    + cbn. rewrite app_nil_r. auto 6.
  - split; [|split].
    + intros _. cbn. by rewrite app_nil_r.
    + intros H; revert H.
      destruct (String.eqb target "structural") eqn:Hs; paths_differ.
    + cbn. rewrite app_nil_r. auto.
  - split; [|split].
    + intros [H|H]; revert H;
        destruct (String.eqb target "structural") eqn:Hs; paths_differ.
    + intros H; revert H. paths_differ.
    + cbn. rewrite app_nil_r. auto 7.
  - split; [|split].
    + intros [H|H]; revert H;
        destruct (String.eqb target "structural") eqn:Hs; paths_differ.
    + intros H; revert H. paths_differ.
    + cbn. auto 8.
Qed.

(** The claim as it is worded fails for the calibration image: in a run
    for target [structural] the chain saved for it holds no per-timepoint
    motion correction, only the inverse of its first volume. *)
Lemma calibration_chain_lacks_motion_correction :
  fst demo_run_structural = Ok tt /\
  exists t src ref,
    Saved (calib_outpath demo_base) (Resampled t src ref) ∈ log (snd demo_run_structural) /\
    ~ motion_gdc_epi demo_base "structural" t /\
    asl2calib_mc demo_base ∉ chain_elements t.
Proof.
  split; [vm_compute; reflexivity|].
  exists (chain [calib2asl0 demo_base; gdc demo_base; epi_dc demo_base "structural"]),
         (calib demo_base), (reference demo_base "structural").
  split; [|split].
  - apply (list_elem_of_lookup_2 _ 8%nat). vm_compute. reflexivity.
  - intros [rest Hrest]. vm_compute in Hrest. discriminate Hrest.
  - intros Hin. vm_compute in Hin.
    repeat (apply elem_of_cons in Hin as [Hin|Hin]; [discriminate Hin|]).
    by apply elem_of_nil in Hin.
Qed.

(** C2.  Whatever the files, the programs and the target, every dense
    displacement field in a chain that [main] resamples and saves through
    was built with intensity correction switched on. *)
Theorem dense_fields_intensity_corrected
    (env : Command -> list string -> gmap (list string) Node -> ToolResult)
    (grid_size : list string -> nat * nat * nat)
    (study_dir : list string) (sub_id : string) (grads : option (list string))
    (target : string) (w : World) :
  intensity_corrected (gdc (join study_dir [sub_id])) = true /\
  intensity_corrected (epi_dc_warp (join study_dir [sub_id]) target) = true /\
  exists evs,
    log (snd (main env grid_size study_dir sub_id grads target w)) = (log w ++ evs)%list /\
    forall p t src ref x,
      Saved p (Resampled t src ref) ∈ evs ->
      x ∈ chain_elements t ->
      is_nonlinear x = true ->
      intensity_corrected x = true.
Proof.
  split; [reflexivity|]. split; [reflexivity|].
  destruct (emitted_resampling env grid_size study_dir sub_id grads target w)
    as (evs & Hlog & Hrows).
  exists evs. split; [done|]. intros p t src ref x Hin Hx Hnl.
  specialize (Hrows p t src ref Hin). revert Hrows Hx.
  generalize (join study_dir [sub_id]). intros sb Hrow Hx.
  cbn [resamplings In] in Hrow.
  destruct Hrow as [Hrow|[Hrow|[Hrow|[Hrow|[Hrow|[Hrow|[Hrow|[]]]]]]]];
    injection Hrow as <- <- <- <-;
    cbn [chain_elements chain map concat app] in Hx;
    rewrite ?chain_elements_epi_dc, ?app_nil_r in Hx;
    try (destruct (String.eqb target "asl"));
    repeat (apply elem_of_cons in Hx as [->|Hx]; [first [reflexivity|discriminate Hnl]|]);
    by apply elem_of_nil in Hx.
Qed.

(** Both warps do occur in a saved chain: the first run for target [asl]. *)
Example demo_run_saves_both_warps :
  fst demo_run_asl = Ok tt /\
  Saved (asl_outpath demo_base "asl")
        (Resampled (chain [asl_mc demo_base; gdc demo_base; epi_dc demo_base "asl"])
                   (tis_stcorr demo_base) (reference demo_base "asl"))
    ∈ log (snd demo_run_asl).
Proof.
  split; [vm_compute; reflexivity|].
  apply (list_elem_of_lookup_2 _ 19%nat). vm_compute. reflexivity.
Qed.

(** *** What the target changes *)

(** The claim that nothing but the appended registration tells the two
    targets' chains apart fails: the EPI warp itself is read from another
    file, with another mask as its source grid. *)
Lemma epi_warp_differs_between_targets :
  exists common epi_asl s2a epi_structural,
    Saved (asl_outpath demo_base "asl")
          (Resampled (chain (common ++ [chain [epi_asl; s2a]]))
                     (tis_stcorr demo_base) (reference demo_base "asl"))
      ∈ log (snd demo_run_asl) /\
    Saved (asl_outpath demo_base "structural")
          (Resampled (chain (common ++ [epi_structural]))
                     (tis_stcorr demo_base) (reference demo_base "structural"))
      ∈ log (snd demo_run_structural) /\
    epi_asl <> epi_structural.
Proof.
  exists [asl_mc demo_base; gdc demo_base],
         (epi_dc_warp demo_base "asl"), (struct2asl demo_base "asl"),
         (epi_dc_warp demo_base "structural").
  split; [|split].
  - apply (list_elem_of_lookup_2 _ 19%nat). vm_compute. reflexivity.
  - apply (list_elem_of_lookup_2 _ 7%nat). vm_compute. reflexivity.
  - intros H. vm_compute in H. discriminate H.
Qed.

(** C3, as the code has it.  When [main] saves the corrected ASL series
    or the scaling factors, the motion correction and the gradient warp
    are the same for both targets.  For target [asl] the EPI warp is read
    from [asl2struct_warp_init.nii.gz] with the initial ASL mask as its
    source grid, the structural-to-ASL registration is chained after it,
    and the image is resampled onto the grid of the ASL series.  For target
    [structural] the EPI warp is read from [asl2struct_warp_final.nii.gz]
    with the final mask, no registration follows it, and the image is
    resampled onto the ASL-gridded T1 image. *)
Theorem target_selects_warp_registration_and_grid
    (env : Command -> list string -> gmap (list string) Node -> ToolResult)
    (grid_size : list string -> nat * nat * nat)
    (study_dir : list string) (sub_id : string) (grads : option (list string))
    (target : string) (w : World) :
  exists evs,
    log (snd (main env grid_size study_dir sub_id grads target w)) = (log w ++ evs)%list /\
    forall p t src ref,
      Saved p (Resampled t src ref) ∈ evs ->
      let sb := join study_dir [sub_id] in
      p = asl_outpath sb target \/ p = sfs_outpath sb target ->
      (target = "asl" ->
       t = chain [asl_mc sb; gdc sb;
                  chain [FromFnirt (join (distcorr_dir sb) ["asl2struct_warp_init.nii.gz"])
                                   (join (reg_dir sb) ["asl_vol1_mask_init.nii.gz"])
                                   (struct sb) true constrain_jac;
                         FromFlirt (join (distcorr_dir sb) ["struct2asl.mat"])
                                   (struct sb) (tis sb)]] /\
       ref = GridOf (tis_stcorr sb)) /\
      (target = "structural" ->
       t = chain [asl_mc sb; gdc sb;
                  FromFnirt (join (distcorr_dir sb) ["asl2struct_warp_final.nii.gz"])
                            (join (reg_dir sb) ["asl_vol1_mask_final.nii.gz"])
                            (struct sb) true constrain_jac] /\
       ref = GridOf (t1_asl_grid sb)).
Proof.
  destruct (emitted_resampling env grid_size study_dir sub_id grads target w)
    as (evs & Hlog & Hrows).
  exists evs. split; [done|]. intros p t src ref Hin.
  specialize (Hrows p t src ref Hin). revert Hrows.
  generalize (join study_dir [sub_id]). intros sb Hrow. cbv zeta. intros Hp.
  assert (Hgoal : t = chain [asl_mc sb; gdc sb; epi_dc sb target] /\
                  ref = reference sb target).
  { cbn [resamplings In] in Hrow.
    destruct Hrow as [Hrow|[Hrow|[Hrow|[Hrow|[Hrow|[Hrow|[Hrow|[]]]]]]]];
      injection Hrow as <- <- <- <-; try done;
      exfalso; destruct Hp as [H|H]; revert H;
      destruct (String.eqb target "structural") eqn:Hs; paths_differ. }
  destruct Hgoal as [-> ->]. split; intros ->; split; reflexivity.
Qed.

(** *** External programs that fail *)

(** C4 on the code: the exit status of [gradient_unwarp.py] is dropped.
    The run goes on to the end, returns normally and saves the corrected
    ASL series through the warp the failed program left. *)
Theorem failed_gradient_unwarp_goes_unnoticed :
  let run := main gradient_unwarp_fails demo_grid ["data"] "S1" demo_grads "asl"
                  demo_world in
  fst run = Ok tt /\
  log (snd run) !! 3%nat
  = Some (Ran (GradientUnwarp (asl_vol0 demo_base) "gdc_corr_vol1.nii.gz"
                              ["data"; "coeff.grad"])
              (distcorr_dir demo_base) 1) /\
  log (snd run) !! 19%nat
  = Some (Saved (asl_outpath demo_base "asl")
                (Resampled (chain [asl_mc demo_base; gdc demo_base; epi_dc demo_base "asl"])
                           (tis_stcorr demo_base) (reference demo_base "asl"))).
Proof. vm_compute. repeat split; reflexivity. Qed.

(** The sibling step that passes [check=True] does raise. *)
Example failed_asl_reg_is_raised :
  fst (main asl_reg_main_fails demo_grid ["data"] "S1" demo_grads "asl" demo_world)
  = Raise (CalledProcessError 1).
Proof. vm_compute. reflexivity. Qed.

(** None of the three generation steps ever raises CalledProcessError,
    whatever their program returns. *)
Lemma generation_steps_never_raise_called_process_error
    (env : Command -> list string -> gmap (list string) Node -> ToolResult)
    (a b c d e f g h i : list string) (t : Transform) (config : string) :
  let ok := fun e => forall rc, e <> CalledProcessError rc in
  raises_only ok (generate_gdc_warp env a b c) /\
  raises_only ok (generate_fmaps env a b config c) /\
  raises_only ok (generate_epidc_warp env a b c d e t f g h i).
Proof.
  intros ok. unfold generate_gdc_warp, generate_fmaps, generate_epidc_warp. cbv zeta.
  repeat split;
    repeat (first
      [ apply raises_only_ret
      | apply raises_only_getcwd
      | apply raises_only_chdir; by intros ?
      | apply raises_only_load; by intros ?
      | apply raises_only_save; by intros ?
      | apply raises_only_run_unchecked
      | apply raises_only_run_fsl; by intros ?
      | apply raises_only_bind; [|intros ?] ]).
Qed.

(** *** Files that exist already *)

Lemma tools_succeed_well_behaved : well_behaved tools_succeed.
Proof. intros cmd d f p Hp. exact Hp. Qed.




(** *** The working directory around the external programs *)

Lemma rest_of_generate_fmaps_logs
    (env : Command -> list string -> gmap (list string) Node -> ToolResult)
    (topup_fmap corrected fmap_ fmapmag_ fmapmagbrain_ pwd : list string) (w : World) :
  exists evs,
    log (snd ((load topup_fmap ;; load topup_fmap ;;
               save fmap_ (ScaledBy2Pi topup_fmap) ;;
               load corrected ;; save fmapmag_ (MeanOverTime corrected) ;;
               run_fsl env (Bet fmapmag_ fmapmagbrain_) ;; chdir pwd) w))
    = (log w ++ evs)%list.
Proof.
  assert (H : emits (fun _ => True) (fun _ => True)
                (load topup_fmap ;; load topup_fmap ;;
                 save fmap_ (ScaledBy2Pi topup_fmap) ;;
                 load corrected ;; save fmapmag_ (MeanOverTime corrected) ;;
                 run_fsl env (Bet fmapmag_ fmapmagbrain_) ;; chdir pwd))
    by repeat emits_step.
  destruct (H w) as (evs & Hlog & _). eauto.
Qed.

(** C8.  [generate_gdc_warp] and [generate_fmaps] run their program with
    the output directory as the working directory, and when they return
    normally the working directory is what it was at entry. *)
Theorem working_directory_restored
    (env : Command -> list string -> gmap (list string) Node -> ToolResult)
    (asl_vol0 coeffs_path sefms params distcorr_dir : list string) (config : string)
    (w : World) :
  (forall w',
     generate_gdc_warp env asl_vol0 coeffs_path distcorr_dir w = (Ok tt, w') ->
     cwd w' = cwd w /\
     exists rc,
       log w' = (log w ++ [Ran (GradientUnwarp asl_vol0 "gdc_corr_vol1.nii.gz" coeffs_path)
                               distcorr_dir rc])%list) /\
  (forall w',
     generate_fmaps env sefms params config distcorr_dir w = (Ok tt, w') ->
     cwd w' = cwd w /\
     exists rc evs,
       log w' = (log w ++ Ran (Topup sefms params config "topup"
                                     (join distcorr_dir ["topup_fmap_hz.nii.gz"])
                                     (join distcorr_dir ["corrected_sefms.nii.gz"]))
                              distcorr_dir rc :: evs)%list).
Proof.
  split; intros w'.
  - unfold generate_gdc_warp. intros H.
    apply bind_ok_inv in H as (pwd & w0 & Hpwd & H). injection Hpwd as <- <-.
    apply bind_ok_inv in H as ([] & w1 & Hcd & H).
    apply chdir_ok in Hcd as (Hcwd1 & Hfs1 & Hlog1).
    apply bind_ok_inv in H as (rc & w2 & Hrun & H).
    apply chdir_ok in H as (Hcwd & _ & Hlog).
    split; [done|]. unfold run in Hrun. cbn in Hrun. injection Hrun as <- <-.
    eexists. rewrite Hlog. cbn. by rewrite Hlog1, Hcwd1.
  - unfold generate_fmaps. cbv zeta. intros H.
    apply bind_ok_inv in H as (pwd & w0 & Hpwd & H). injection Hpwd as <- <-.
    apply bind_ok_inv in H as ([] & w1 & Hcd & H).
    apply chdir_ok in Hcd as (Hcwd1 & Hfs1 & Hlog1).
    apply bind_ok_inv in H as (rc & w2 & Hrun & H).
    unfold run in Hrun. cbn in Hrun. injection Hrun as <- <-.
    match type of H with ?m ?w2 = _ =>
      destruct (rest_of_generate_fmaps_logs env
                  (join distcorr_dir ["topup_fmap_hz.nii.gz"])
                  (join distcorr_dir ["corrected_sefms.nii.gz"])
                  (join distcorr_dir ["fmap.nii.gz"])
                  (join distcorr_dir ["fmapmag.nii.gz"])
                  (join distcorr_dir ["fmapmagbrain.nii.gz"]) (cwd w) w2)
        as (evs & Hevs)
    end.
    rewrite H in Hevs. cbn [snd] in Hevs.
    do 6 (apply bind_ok_inv in H as (? & ? & _ & H)).
    apply chdir_ok in H as (Hcwd & _ & _).
    split; [done|].
    eexists _, evs. rewrite Hevs. cbn. rewrite Hlog1, Hcwd1, <- app_assoc. reflexivity.
Qed.

Lemma working_directory_restored_witness :
  (cwd (snd (generate_gdc_warp tools_succeed ["vol0.nii.gz"] ["coeff.grad"] ["out"]
                               demo_world_dirs))
   = cwd demo_world_dirs /\
   exists rc,
     log (snd (generate_gdc_warp tools_succeed ["vol0.nii.gz"] ["coeff.grad"] ["out"]
                                 demo_world_dirs))
     = (log demo_world_dirs ++
        [Ran (GradientUnwarp ["vol0.nii.gz"] "gdc_corr_vol1.nii.gz" ["coeff.grad"])
             ["out"] rc])%list) /\
  (cwd (snd (generate_fmaps tools_succeed ["sefms.nii.gz"] ["params.txt"] "b02b0.cnf"
                            ["out"] demo_world_dirs))
   = cwd demo_world_dirs /\
   exists rc evs,
     log (snd (generate_fmaps tools_succeed ["sefms.nii.gz"] ["params.txt"] "b02b0.cnf"
                              ["out"] demo_world_dirs))
     = (log demo_world_dirs ++
        Ran (Topup ["sefms.nii.gz"] ["params.txt"] "b02b0.cnf" "topup"
                   (join ["out"] ["topup_fmap_hz.nii.gz"])
                   (join ["out"] ["corrected_sefms.nii.gz"]))
            ["out"] rc :: evs)%list).
Proof.
  destruct (working_directory_restored tools_succeed ["vol0.nii.gz"] ["coeff.grad"]
              ["sefms.nii.gz"] ["params.txt"] ["out"] "b02b0.cnf" demo_world_dirs)
    as [Hgdc Hfmaps].
  split.
  - apply Hgdc. vm_compute. reflexivity.
  - apply Hfmaps. vm_compute. reflexivity.
Defined.

(** When a step between the two [chdir] calls raises, the working
    directory stays in the output directory: topup leaves no field map. *)
Example working_directory_left_on_error :
  let run := generate_fmaps
               (fun cmd d f => {| returncode := 1; created := [] |})
               ["sefms.nii.gz"] ["params.txt"] "b02b0.cnf" ["out"] demo_world_dirs in
  fst run = Raise (FileNotFoundError ["out"; "topup_fmap_hz.nii.gz"]) /\
  cwd (snd run) = ["out"].
Proof. vm_compute. split; reflexivity. Qed.

(** The field-map directories of the demo subject: the last two in sorted
    order are [17-...] and [18-...], and the PA file is in the second. *)
Lemma find_field_maps_from_last_two_witness :
  exists front d0 d1,
    sorted (glob_field_maps (fs demo_world) (scan_dir ["data"] "S1"))
    = (front ++ [d0; d1])%list /\
    ((has (fs demo_world) (join d0 (pa_file "S1")) = true /\
      join demo_scans ("18-FieldMap_SE_EPI" :: pa_file "S1") = join d0 (pa_file "S1") /\
      join demo_scans ("17-FieldMap_SE_EPI" :: ap_file "S1") = join d1 (ap_file "S1")) \/
     (has (fs demo_world) (join d0 (pa_file "S1")) = false /\
      has (fs demo_world) (join d1 (pa_file "S1")) = true /\
      join demo_scans ("18-FieldMap_SE_EPI" :: pa_file "S1") = join d1 (pa_file "S1") /\
      join demo_scans ("17-FieldMap_SE_EPI" :: ap_file "S1") = join d0 (ap_file "S1"))).
Proof.
  apply (proj1 (find_field_maps_from_last_two (fs demo_world) ["data"] "S1")).
  vm_compute. reflexivity.
Defined.

End DistcorrWarpsFacts.

(** ** Facts about the MT-estimation driver *)

Module MtEstimationFacts.
Import MtEstimation.

Section Main.
Variable py_int : string -> option Z.
Variable cpu_count : Z.
Variable cwd : string.
Variable resolve : string -> option (list string).
Variable loadtxt : list string -> Res (list string).
Variable setup_mtestimation :
  list string -> list string -> string -> Z -> bool -> bool -> Res SetupResult.
Variable estimate_mt :
  list (list string) -> list string -> Z -> string -> string -> bool -> Res (list string).

Local Abbreviation int_choice := (MtEstimation.int_choice py_int).
Local Abbreviation parse_args := (MtEstimation.parse_args py_int cpu_count cwd).
Local Abbreviation resolve_strict := (MtEstimation.resolve_strict resolve).
Local Abbreviation setup_call := (MtEstimation.setup_call setup_mtestimation).
Local Abbreviation run_pipeline :=
  (MtEstimation.run_pipeline resolve loadtxt setup_mtestimation estimate_mt).
Local Abbreviation main :=
  (MtEstimation.main py_int cpu_count cwd resolve loadtxt setup_mtestimation estimate_mt).

Lemma in_range_spec (lo hi x : Z) : in_range lo hi x = true <-> lo <= x < hi.
Proof. unfold in_range. rewrite andb_true_iff, Z.leb_le, Z.ltb_lt. tauto. Qed.

Lemma int_choice_given (lo hi default : Z) (s : string) (v : Z) :
  int_choice lo hi default (Some s) = Ok v <-> py_int s = Some v /\ lo <= v < hi.
Proof.
  unfold MtEstimation.int_choice, usage_error.
  destruct (py_int s) as [x|]; [|split; [discriminate | intros [? _]; discriminate]].
  destruct (in_range lo hi x) eqn:Hr.
  - apply in_range_spec in Hr. split.
    + intros [= <-]. done.
    + intros [[= <-] _]. done.
  - split; [discriminate|]. intros [[= <-] Hv].
    apply in_range_spec in Hv. congruence.
Qed.

Lemma int_choice_refused (lo hi default : Z) (s : string) :
  (forall v, py_int s = Some v -> ~ lo <= v < hi) ->
  int_choice lo hi default (Some s) = Raise (SystemExit 2).
Proof.
  intros Hbad. unfold MtEstimation.int_choice, usage_error.
  destruct (py_int s) as [x|]; [|reflexivity].
  destruct (in_range lo hi x) eqn:Hr; [|reflexivity].
  apply in_range_spec in Hr. by destruct (Hbad x).
Qed.

(** Every way [parse_args] fails is a usage error. *)
Lemma parse_args_failure (a : RawArgs) (e : Exn) :
  parse_args a = Raise e -> e = SystemExit 2.
Proof.
  unfold MtEstimation.parse_args, required, choice, MtEstimation.int_choice, usage_error.
  repeat (match goal with
          | |- context [match ?x with _ => _ end] => destruct x
          | |- context [if ?b then _ else _] => destruct b
          end; cbn [rbind]; try congruence).
Qed.

Lemma parse_args_interpolation (a : RawArgs) (ns : Namespace) :
  parse_args a = Ok ns ->
  int_choice 0 (5 + 1) 3 (raw_interpolation a) = Ok (interpolation ns).
Proof.
  unfold MtEstimation.parse_args.
  destruct (required (raw_studydir a)); [|discriminate].
  destruct (required (raw_subjectlist a)); [|discriminate].
  destruct (choice _ _ (raw_roi a)); [|discriminate].
  destruct (choice _ _ (raw_method a)); [|discriminate].
  destruct (required (raw_grads a)); [|discriminate].
  destruct (int_choice 1 _ 1 (raw_cores a)); [|discriminate].
  destruct (int_choice 0 _ 3 (raw_interpolation a)); [|discriminate].
  cbn [rbind]. intros [= <-]. reflexivity.
Qed.

Lemma parse_args_refuses_interpolation (a : RawArgs) :
  int_choice 0 (5 + 1) 3 (raw_interpolation a) = Raise (SystemExit 2) ->
  parse_args a = Raise (SystemExit 2).
Proof.
  intros Hbad. destruct (parse_args a) as [ns|e] eqn:Hp.
  - apply parse_args_interpolation in Hp. congruence.
  - by rewrite (parse_args_failure _ _ Hp).
Qed.

Lemma report_spec (results : list SetupResult) (acc : list (list string)) :
  report results acc
  = (map (fun r => Print (ResultLine r)) results,
     (acc ++ map subject (List.filter (fun r => status r =? 1) results))%list).
Proof.
  revert acc. induction results as [|r results IH]; intros acc; cbn [report].
  - cbn. by rewrite app_nil_r.
  - rewrite IH. cbn [map List.filter].
    destruct (status r =? 1); cbn [map]; [rewrite <- app_assoc|]; reflexivity.
Qed.

Lemma rmap_length {A B} (f : A -> Res B) (l : list A) (k : list B) :
  rmap f l = Ok k -> length k = length l.
Proof.
  revert k. induction l as [|x l IH]; intros k; cbn [rmap].
  - intros [= <-]. reflexivity.
  - destruct (f x); [|discriminate]. cbn [rbind].
    destruct (rmap f l); [|discriminate]. cbn [rbind].
    intros [= <-]. cbn. f_equal. by apply IH.
Qed.

(** Every setup call of a run carries the parsed interpolation order. *)
Lemma run_pipeline_setup_calls (ns : Namespace) (r : Res unit) (evs : list Event)
    (subj rois : list string) (c : string) (i : Z) (d f : bool) :
  run_pipeline ns = (r, evs) ->
  SetupCall subj rois c i d f ∈ evs ->
  i = interpolation ns.
Proof.
  unfold MtEstimation.run_pipeline.
  destruct (MtEstimation.resolve_strict resolve (studydir ns)) as [sd|];
    [|intros [= _ <-]; by intros ?%elem_of_nil].
  destruct (rbind _ loadtxt) as [names|];
    [|intros [= _ <-]; by intros ?%elem_of_nil].
  destruct (ROIS (roi ns)) as [rs|];
    [|intros [= _ <-]; by intros ?%elem_of_nil].
  set (subjects := map _ names).
  set (said := if verbose ns then _ else _).
  assert (Hcalled : SetupCall subj rois c i d f ∈ (said ++ map (setup_event ns rs) subjects)%list
                    -> i = interpolation ns).
  { intros [Hin|Hin]%elem_of_app.
    - unfold said in Hin. destruct (verbose ns); set_solver.
    - apply list_elem_of_In, in_map_iff in Hin as (x & [= _ _ _ <- _ _] & _). done. }
  destruct (rmap _ subjects) as [results|]; [|intros [= _ <-]; by apply Hcalled].
  rewrite report_spec. cbn [app].
  assert (Hrep : SetupCall subj rois c i d f ∈
                   ((said ++ map (setup_event ns rs) subjects) ++
                    map (fun r => Print (ResultLine r)) results)%list -> i = interpolation ns).
  { intros [Hin|Hin]%elem_of_app; [by apply Hcalled|].
    apply list_elem_of_In, in_map_iff in Hin as (x & [=] & _). }
  destruct (time ns && _); [intros [= _ <-]; by apply Hrep|].
  assert (Hest : forall tl, SetupCall subj rois c i d f ∈
                   ((((said ++ map (setup_event ns rs) subjects) ++
                    map (fun r => Print (ResultLine r)) results) ++
                    (if time ns then [Print TimeLine] else [])) ++ tl)%list ->
                   SetupCall subj rois c i d f ∈ tl \/ i = interpolation ns).
  { intros tl [[Hin|Hin]%elem_of_app|Hin]%elem_of_app; [right; by apply Hrep| |by left].
    destruct (time ns); set_solver. }
  destruct (estimate_mt _ _ _ _ _ _) as [errors|]; intros [= _ <-].
  - intros [Hin|Hin]%elem_of_app.
    + destruct (Hest _ Hin) as [Hin'|]; [set_solver|done].
    + apply list_elem_of_In, in_map_iff in Hin as (x & [=] & _).
  - intros Hin. destruct (Hest _ Hin) as [Hin'|]; [set_solver|done].
Qed.



End Main.

(** *** The two theorems on a concrete command line *)


Example interpolation_4_reaches_setup :
  snd (demo_main (demo_args (Some "4")))
  = [SetupCall ["data"; "study"; "s1"] ["combined"] "coeff.grad" 4 false true;
     SetupCall ["data"; "study"; "s2"] ["combined"] "coeff.grad" 4 false true;
     SetupCall ["data"; "study"; "s3"] ["combined"] "coeff.grad" 4 false true;
     Print (ResultLine {| subject := ["data"; "study"; "s1"]; status := 1; detail := "" |});
     Print (ResultLine {| subject := ["data"; "study"; "s2"]; status := 0; detail := "" |});
     Print (ResultLine {| subject := ["data"; "study"; "s3"]; status := 1; detail := "" |});
     Print TimeLine;
     EstimateCall [["data"; "study"; "s1"]; ["data"; "study"; "s3"]] ["combined"] 8
                  "separate" "here" false].
Proof. vm_compute. reflexivity. Qed.


(** An exception that escapes [setup_mtestimation] is not caught by the
    driver: [pool.map] re-raises it and nothing is estimated. *)
Example escaping_exception_ends_batch :
  MtEstimation.run_pipeline demo_resolve demo_loadtxt
    (fun subject rois coeffs interp ign force =>
       if bool_decide (subject = ["data"; "study"; "s2"])
       then Raise RuntimeError else demo_setup subject rois coeffs interp ign force)
    demo_estimate demo_namespace
  = (Raise RuntimeError,
     [SetupCall ["data"; "study"; "s1"] ["combined"] "coeff.grad" 3 false true;
      SetupCall ["data"; "study"; "s2"] ["combined"] "coeff.grad" 3 false true;
      SetupCall ["data"; "study"; "s3"] ["combined"] "coeff.grad" 3 false true]).
Proof. vm_compute. reflexivity. Qed.

End MtEstimationFacts.


(** ** When [create_ti_image] fails *)

Module NumpyFailures.
Import Numpy NumpyFacts.

Section Arrays.
Context {R : Type}.
Variable Radd Rmul : R -> R -> R.
Variable of_int : Z -> R.

Local Abbreviation create_ti_image := (Numpy.create_ti_image Radd Rmul of_int).


End Arrays.


End NumpyFailures.

(** ** Facts about the further ways of following a computation *)

Module OutcomesFacts.

Local Open Scope py_scope.

(** *** Computations that never return *)

Lemma fails_raise {A} (e : Exn) : fails (raise (A := A) e).
Proof. by intros w. Qed.

Lemma fails_bind_l {A B} (m : M A) (k : A -> M B) :
  fails m -> fails (x <- m ;; k x).
Proof.
  intros Hm w. specialize (Hm w). unfold bind.
  by destruct (m w) as [[a|e] w1].
Qed.

Lemma fails_bind_r {A B} (Q : A -> Prop) (m : M A) (k : A -> M B) :
  returns Q m -> (forall a, Q a -> fails (k a)) -> fails (x <- m ;; k x).
Proof.
  intros Hm Hk w. specialize (Hm w). unfold bind.
  destruct (m w) as [[a|e] w1]; [|done]. by apply Hk, Hm.
Qed.

Lemma fails_after {A B} (m : M A) (k : A -> M B) :
  (forall a, fails (k a)) -> fails (x <- m ;; k x).
Proof. intros Hk. apply (fails_bind_r (fun _ => True)); [done|auto]. Qed.

(** *** The working directory when a computation raises *)

Lemma stays_on_error_bind {A B} (m : M A) (k : A -> M B) :
  stays m -> (forall a, stays_on_error (k a)) -> stays_on_error (x <- m ;; k x).
Proof.
  intros Hm Hk w e w'. unfold bind. specialize (Hm w).
  destruct (m w) as [[a|e1] w1]; cbn [snd] in Hm.
  - intros H. apply Hk in H. congruence.
  - intros [= _ <-]. done.
Qed.

Lemma chdir_raise (d : list string) (w w' : World) (e : Exn) :
  chdir d w = (Raise e, w') -> w' = w /\ e = FileNotFoundError d.
Proof.
  unfold chdir. destruct (fs w !! d) as [[]|]; intros [= <- <-]; done.
Qed.

Lemma stays_on_error_chdir (d : list string) : stays_on_error (chdir d).
Proof. intros w e w' H. by apply chdir_raise in H as [-> _]. Qed.

(** *** Entries that are there when a computation returns *)

Lemma ensures_later {A B} (p : list string) (m : M A) (k : A -> M B) :
  (forall a, ensures p (k a)) -> ensures p (x <- m ;; k x).
Proof.
  intros Hk w b w' H. apply bind_ok_inv in H as (a & w1 & _ & H). by eapply Hk.
Qed.

Lemma ensures_now {A B} (p : list string) (m : M A) (k : A -> M B) :
  ensures p m -> (forall a, keeps p (k a)) -> ensures p (x <- m ;; k x).
Proof.
  intros Hm Hk w b w' H. apply bind_ok_inv in H as (a & w1 & Hm1 & H).
  apply Hm in Hm1. destruct (Hk a w1 Hm1) as [Hfs _].
  rewrite H in Hfs. cbn [snd] in Hfs. by rewrite Hfs.
Qed.

Lemma ensures_save (p : list string) (c : Content) : ensures p (save p c).
Proof.
  intros w a w'. unfold save.
  destruct (fs w !! p) as [[]|]; intros [= _ <-]; cbn; rewrite lookup_insert_eq; eauto.
Qed.

(** *** A program run right after a change of directory *)

Section WellBehaved.
Variable env : Command -> list string -> gmap (list string) Node -> ToolResult.
Hypothesis env_ok : well_behaved env.

(** The program writes relative to the directory just entered. *)
Lemma keeps_chdir_run {B} (p d : list string) (cmd : Command) (check : bool)
    (k : Z -> M B) :
  p ∉ outputs d cmd -> (forall a, keeps p (k a)) ->
  keeps p (chdir d ;; x <- run env cmd check ;; k x).
Proof.
  intros Hp Hk w Hsome.
  assert (Hnot : p ∉ created (env cmd d (fs w)))
    by (intros Hin; apply Hp; exact (env_ok cmd d (fs w) p Hin)).
  unfold bind, chdir, run.
  destruct (fs w !! d) as [[|c]|] eqn:Hd; cbn [snd];
    try (split; [done|]; exists []; by rewrite app_nil_r).
  cbn [cwd fs].
  set (rc := returncode (env cmd d (fs w))).
  set (w2 := emit (Ran cmd d rc)
                  (set_fs (write_outputs cmd (created (env cmd d (fs w))) (fs w))
                          {| fs := fs w; cwd := d; log := log w |})).
  assert (Hfs2 : fs w2 !! p = fs w !! p) by (by apply write_outputs_other).
  assert (Hlog2 : log w2 = (log w ++ [Ran cmd d rc])%list) by done.
  destruct (check && _); cbn [snd].
  - split; [done|]. eexists. split; [exact Hlog2|]. by repeat constructor.
  - destruct (Hk rc w2) as (Hfs & evs & Hlog & Hev); [by rewrite Hfs2|].
    destruct (k rc w2) as [r w3]; cbn [snd] in *.
    split; [congruence|].
    exists (Ran cmd d rc :: evs).
    rewrite Hlog, Hlog2, <- app_assoc. split; [done|].
    constructor; [exact Hp|done].
Qed.

End WellBehaved.

(** *** Monitors *)

Section Watch.
Context {St : Type}.
Variable step : St -> Event -> option St.

Lemma watch_app (s : St) (l1 l2 : list Event) :
  watch step s (l1 ++ l2) = match watch step s l1 with
                            | Some s1 => watch step s1 l2
                            | None => None
                            end.
Proof.
  revert s. induction l1 as [|e l1 IH]; intros s; cbn; [done|].
  destruct (step s e); [apply IH|done].
Qed.

Lemma follows_silent {A} (s : St) (Q : A -> St -> Prop) (m : M A) :
  (forall w, log (snd (m w)) = log w) ->
  (forall w a, fst (m w) = Ok a -> Q a s) ->
  follows step s Q m.
Proof.
  intros Hlog HQ w. exists [], s. rewrite app_nil_r. split; [apply Hlog|].
  split; [done|apply HQ].
Qed.

Lemma follows_event {A} (s s1 : St) (m : M A) (e : World -> Event) :
  (forall w, (log (snd (m w)) = log w /\ forall a, fst (m w) <> Ok a) \/
             log (snd (m w)) = (log w ++ [e w])%list) ->
  (forall w, step s (e w) = Some s1) ->
  follows step s (fun _ s' => s' = s1) m.
Proof.
  intros Hlog Hstep w. destruct (Hlog w) as [[H Hno]|H].
  - exists [], s. rewrite app_nil_r. split; [done|]. split; [done|].
    intros a Ha. by destruct (Hno a).
  - exists [e w], s1. split; [done|]. cbn. rewrite Hstep. done.
Qed.

Lemma follows_bind {A B} (s : St) (Q : A -> St -> Prop) (R : B -> St -> Prop)
    (m : M A) (k : A -> M B) :
  follows step s Q m -> (forall a s1, Q a s1 -> follows step s1 R (k a)) ->
  follows step s R (x <- m ;; k x).
Proof.
  intros Hm Hk w. destruct (Hm w) as (evs & s1 & Hlog & Hw & HQ).
  unfold bind. destruct (m w) as [[a|e] w1]; cbn [fst snd] in *.
  - destruct (Hk a s1 (HQ a eq_refl) w1) as (evs' & s2 & Hlog' & Hw' & HR).
    exists (evs ++ evs')%list, s2. rewrite Hlog', Hlog, app_assoc.
    split; [done|]. rewrite watch_app, Hw. done.
  - exists evs, s1. split; [done|]. split; [done|]. intros b [=].
Qed.

Lemma follows_weaken {A} (s : St) (Q Q' : A -> St -> Prop) (m : M A) :
  follows step s Q m -> (forall a s', Q a s' -> Q' a s') -> follows step s Q' m.
Proof.
  intros Hm HQ w. destruct (Hm w) as (evs & s' & Hlog & Hw & Hq).
  exists evs, s'. eauto.
Qed.

(** Steps that leave the monitor where it is. *)
Lemma follows_then {A B} (s : St) (R : B -> St -> Prop) (m : M A) (k : A -> M B) :
  follows step s (fun _ s' => s' = s) m -> (forall a, follows step s R (k a)) ->
  follows step s R (x <- m ;; k x).
Proof. intros Hm Hk. eapply follows_bind; [exact Hm|]. intros a ? ->. apply Hk. Qed.

Lemma follows_quiet {A} (s : St) (m : M A) :
  (forall w, log (snd (m w)) = log w) -> follows step s (fun _ s' => s' = s) m.
Proof. intros Hlog. by apply follows_silent. Qed.

Lemma follows_ret {A} (s : St) (a : A) : follows step s (fun _ s' => s' = s) (ret a).
Proof. by apply follows_quiet. Qed.

Lemma follows_raise {A} (s : St) (Q : A -> St -> Prop) (e : Exn) :
  follows step s Q (raise e).
Proof. apply follows_silent; [done|]. intros w a [=]. Qed.

Lemma follows_load (s : St) (p : list string) :
  follows step s (fun _ s' => s' = s) (load p).
Proof. apply follows_quiet. intros w. unfold load. by destruct (fs w !! p). Qed.

Lemma follows_chdir (s : St) (d : list string) :
  follows step s (fun _ s' => s' = s) (chdir d).
Proof. apply follows_quiet. intros w. unfold chdir. by destruct (fs w !! d) as [[]|]. Qed.

Lemma follows_makedirs (s : St) (d : list string) :
  follows step s (fun _ s' => s' = s) (makedirs d).
Proof. apply follows_quiet. intros w. unfold makedirs. by destruct (fold_left _ _ _). Qed.

Lemma follows_when (s : St) (b : bool) (m : M unit) :
  follows step s (fun _ s' => s' = s) m -> follows step s (fun _ s' => s' = s) (when b m).
Proof. destruct b; [done|]. intros _. apply follows_ret. Qed.

Lemma follows_save (s s1 : St) (p : list string) (c : Content) :
  step s (Saved p c) = Some s1 -> follows step s (fun _ s' => s' = s1) (save p c).
Proof.
  intros Hs. apply (follows_event s s1 _ (fun _ => Saved p c)); [|done].
  intros w. unfold save. destruct (fs w !! p) as [[]|]; cbn; auto;
    left; (split; [done|]); intros a [=].
Qed.

Lemma follows_append (s s1 : St) (p : list string) (str : string) :
  (forall c, step s (Saved p c) = Some s1) ->
  follows step s (fun _ s' => s' = s1) (append p str).
Proof.
  intros Hs.
  apply (follows_event s s1 _ (fun w => Saved p match fs w !! p with
                                                | Some (File c) => Appended c str
                                                | _ => Text str
                                                end)); [|done].
  intros w. unfold append. destruct (fs w !! p) as [[]|]; cbn; auto;
    left; (split; [done|]); intros a [=].
Qed.

Lemma follows_remove (s s1 : St) (p : list string) :
  step s (Removed p) = Some s1 -> follows step s (fun _ s' => s' = s1) (remove p).
Proof.
  intros Hs. apply (follows_event s s1 _ (fun _ => Removed p)); [|done].
  intros w. unfold remove. destruct (fs w !! p) as [[]|]; cbn; auto;
    left; (split; [done|]); intros a [=].
Qed.

Lemma follows_replace (s s1 : St) (src dst : list string) :
  step s (Replaced src dst) = Some s1 ->
  follows step s (fun _ s' => s' = s1) (replace src dst).
Proof.
  intros Hs. apply (follows_event s s1 _ (fun _ => Replaced src dst)); [|done].
  intros w. unfold replace. destruct (fs w !! src); cbn; auto;
    left; (split; [done|]); intros a [=].
Qed.

Section Programs.
Variable env : Command -> list string -> gmap (list string) Node -> ToolResult.

Lemma follows_run (s s1 : St) (cmd : Command) (check : bool) :
  (forall d rc, step s (Ran cmd d rc) = Some s1) ->
  follows step s (fun _ s' => s' = s1) (run env cmd check).
Proof.
  intros Hs.
  apply (follows_event s s1 _
           (fun w => Ran cmd (cwd w) (returncode (env cmd (cwd w) (fs w))))); [|done].
  intros w. unfold run. right. by destruct (check && _).
Qed.

Lemma follows_run_fsl (s s1 : St) (cmd : Command) :
  (forall d rc, step s (Ran cmd d rc) = Some s1) ->
  follows step s (fun _ s' => s' = s1) (run_fsl env cmd).
Proof.
  intros Hs.
  apply (follows_event s s1 _
           (fun w => Ran cmd (cwd w) (returncode (env cmd (cwd w) (fs w))))); [|done].
  intros w. unfold run_fsl. right. by destruct (_ =? 0).
Qed.

End Programs.
End Watch.

End OutcomesFacts.
Import OutcomesFacts.

(** ** More about [distcorr_warps.py] *)

Module DistcorrWarpsMoreFacts.
Import DistcorrWarps DistcorrWarpsFacts.

Local Open Scope py_scope.

(** *** [generate_topup_params] *)



(** *** [find_field_maps] *)

Lemma glob_field_maps_NoDup (f : gmap (list string) Node) (d : list string) :
  NoDup (glob_field_maps f d).
Proof. unfold glob_field_maps. apply NoDup_filter, NoDup_elements. Qed.

Lemma glob_field_maps_spec (f : gmap (list string) Node) (d p : list string) :
  p ∈ glob_field_maps f d ->
  is_Some (f !! p) /\ d `prefix_of` p /\ p <> d /\
  exists name, last p = Some name /\ ends_with "-FieldMap_SE_EPI" name = true.
Proof.
  unfold glob_field_maps. rewrite list_elem_of_filter, elem_of_elements, elem_of_dom.
  intros [Hp Hdom]. split; [done|].
  apply Is_true_true in Hp. rewrite !andb_true_iff in Hp.
  destruct Hp as [[Hpre Hne] Hlast].
  apply bool_decide_eq_true in Hpre. apply negb_true_iff, bool_decide_eq_false in Hne.
  split; [done|]. split; [done|].
  destruct (last p) as [name|]; [eauto|discriminate].
Qed.

(** The two directories [find_field_maps] chooses from. *)
Lemma field_map_dirs_pair (f : gmap (list string) Node) (study_dir : list string)
    (subject_number : string) (d0 d1 : list string) :
  field_map_dirs f study_dir subject_number = [d0; d1] ->
  d0 <> d1 /\
  d0 ∈ glob_field_maps f (scan_dir study_dir subject_number) /\
  d1 ∈ glob_field_maps f (scan_dir study_dir subject_number).
Proof.
  unfold field_map_dirs. intros Hlast.
  apply last_two_inv in Hlast as [front Hfront].
  pose proof (sorted_spec (glob_field_maps f (scan_dir study_dir subject_number)))
    as [_ Hperm].
  pose proof (glob_field_maps_NoDup f (scan_dir study_dir subject_number)) as Hnd.
  rewrite <- Hperm, Hfront in Hnd.
  apply NoDup_app in Hnd as (_ & _ & Hnd).
  apply NoDup_cons in Hnd as [Hnotin _].
  split; [set_solver|].
  split; rewrite <- Hperm, Hfront; set_solver.
Qed.

(** X3.  A pair that [find_field_maps] returns names the PA and AP files
    of two different directories, each an existing entry below the
    subject's scan directory whose name ends in [-FieldMap_SE_EPI]; the PA
    file exists.  (Whether the AP file exists is not looked at.) *)
Theorem find_field_maps_result (f : gmap (list string) Node) (study_dir : list string)
    (subject_number : string) (pa ap : list string) :
  find_field_maps f study_dir subject_number = Ok (pa, ap) ->
  is_Some (f !! pa) /\
  exists pa_dir ap_dir,
    pa = join pa_dir (pa_file subject_number) /\
    ap = join ap_dir (ap_file subject_number) /\
    pa_dir <> ap_dir /\
    Forall (fun d => is_Some (f !! d) /\
                     scan_dir study_dir subject_number `prefix_of` d /\
                     d <> scan_dir study_dir subject_number /\
                     exists name, last d = Some name /\
                                  ends_with "-FieldMap_SE_EPI" name = true)
           [pa_dir; ap_dir].
Proof.
  unfold find_field_maps.
  destruct (field_map_dirs f study_dir subject_number) as [|d0 [|d1 [|d2 rest]]] eqn:Hdirs;
    cbn [lookup list_lookup].
  - discriminate.
  - destruct (has f (join d0 _)); discriminate.
  - apply field_map_dirs_pair in Hdirs as (Hne & H0 & H1).
    apply glob_field_maps_spec in H0, H1.
    destruct (has f (join d0 _)) eqn:Hpa0.
    + intros [= <- <-]. split; [by apply bool_decide_eq_true in Hpa0|].
      exists d0, d1. split; [done|]. split; [done|]. split; [done|].
      by repeat (apply Forall_cons; split; [done|]).
    + destruct (has f (join d1 _)) eqn:Hpa1; [|discriminate].
      intros [= <- <-]. split; [by apply bool_decide_eq_true in Hpa1|].
      exists d1, d0. split; [done|]. split; [done|]. split; [done|].
      by repeat (apply Forall_cons; split; [done|]).
  - destruct (has f (join d0 _)); [discriminate|].
    destruct (has f (join d1 _)); discriminate.
Qed.

(** The field maps of the demo subject. *)
Lemma find_field_maps_result_witness :
  is_Some (fs demo_world !! join demo_scans ("18-FieldMap_SE_EPI" :: pa_file "S1")) /\
  exists pa_dir ap_dir,
    join demo_scans ("18-FieldMap_SE_EPI" :: pa_file "S1") = join pa_dir (pa_file "S1") /\
    join demo_scans ("17-FieldMap_SE_EPI" :: ap_file "S1") = join ap_dir (ap_file "S1") /\
    pa_dir <> ap_dir /\
    Forall (fun d => is_Some (fs demo_world !! d) /\
                     scan_dir ["data"] "S1" `prefix_of` d /\
                     d <> scan_dir ["data"] "S1" /\
                     exists name, last d = Some name /\
                                  ends_with "-FieldMap_SE_EPI" name = true)
           [pa_dir; ap_dir].
Proof.
  apply (find_field_maps_result (fs demo_world) ["data"] "S1").
  vm_compute. reflexivity.
Defined.

(** *** What [main] needs to return *)

Section MainNeeds.
Variable env : Command -> list string -> gmap (list string) Node -> ToolResult.
Variable grid_size : list string -> nat * nat * nat.

Lemma if_stale_skipped {A} (p : list string) (body otherwise : M A) (w : World) :
  if_stale p false body otherwise w = otherwise w.
Proof. unfold if_stale, bind, path_exists. by rewrite andb_false_r. Qed.

(** With a target that is neither [asl] nor [structural] no image to
    register is ever bound, and reading it raises. *)
Lemma main_fails_for_other_targets (study_dir : list string) (sub_id : string)
    (grads : option (list string)) (target : string) :
  String.eqb target "asl" = false ->
  String.eqb target "structural" = false ->
  fails (main env grid_size study_dir sub_id grads target).
Proof.
  intros Hasl Hstr. unfold main. cbv zeta. rewrite Hasl, Hstr.
  do 20 (apply fails_after; intros ?).
  apply (fails_bind_r (fun v => v = None)).
  { intros w v. rewrite if_stale_skipped. by intros [= <-]. }
  intros ? ->.
  apply fails_after; intros _.
  apply fails_bind_l. apply fails_raise.
Qed.

Lemma main_returns_for_known_target (study_dir : list string) (sub_id : string)
    (grads : option (list string)) (target : string) (w : World) :
  fst (main env grid_size study_dir sub_id grads target w) = Ok tt ->
  target = "asl" \/ target = "structural".
Proof.
  intros Hok.
  destruct (String.eqb_spec target "asl") as [|Hasl]; [by left|].
  destruct (String.eqb_spec target "structural") as [|Hstr]; [by right|].
  apply String.eqb_neq in Hasl, Hstr.
  pose proof (main_fails_for_other_targets study_dir sub_id grads target Hasl Hstr w)
    as Hfail.
  rewrite Hok in Hfail. discriminate Hfail.
Qed.

(** X4.  [main] returns normally only when gradient coefficients are
    given (the option is documented as optional, but [op.abspath(None)]
    raises TypeError) and the target is [asl] or [structural] (with any
    other target [unreg_img] is never bound). *)
Theorem main_needs_grads_and_target (study_dir : list string) (sub_id : string)
    (grads : option (list string)) (target : string) (w : World) :
  fst (main env grid_size study_dir sub_id grads target w) = Ok tt ->
  is_Some grads /\ (target = "asl" \/ target = "structural").
Proof.
  intros Hok. split.
  - destruct grads; [done|]. discriminate Hok.
  - by apply (main_returns_for_known_target study_dir sub_id grads target w).
Qed.

End MainNeeds.

(** The first run of the demo subject returns. *)
Lemma main_needs_grads_and_target_witness :
  is_Some demo_grads /\ ("asl" = "asl" \/ "asl" = "structural").
Proof.
  apply (main_needs_grads_and_target tools_succeed demo_grid ["data"] "S1" demo_grads
           "asl" demo_world).
  vm_compute. reflexivity.
Defined.

(** *** The working directory when a generation step raises *)

(** X5.  No [try]/[finally] guards the change of directory.  When
    [generate_gdc_warp] or [generate_fmaps] raises, either the output
    directory could not be entered, and then nothing was run and nothing
    changed, or the working directory is left in the output directory
    (for [generate_gdc_warp] that happens only when the directory the
    caller was in is no longer there to go back to). *)
Theorem working_directory_after_error
    (env : Command -> list string -> gmap (list string) Node -> ToolResult)
    (asl_vol0 coeffs_path sefms params distcorr_dir : list string) (config : string)
    (w w' : World) (e : Exn) :
  (generate_gdc_warp env asl_vol0 coeffs_path distcorr_dir w = (Raise e, w') ->
   (w' = w /\ e = FileNotFoundError distcorr_dir) \/
   (cwd w' = distcorr_dir /\ e = FileNotFoundError (cwd w))) /\
  (generate_fmaps env sefms params config distcorr_dir w = (Raise e, w') ->
   (w' = w /\ e = FileNotFoundError distcorr_dir) \/
   cwd w' = distcorr_dir).
Proof.
  split.
  - unfold generate_gdc_warp, bind at 1, getcwd. cbv beta iota.
    unfold bind at 1.
    destruct (chdir distcorr_dir w) as [[[]|e1] w1] eqn:Hcd.
    + apply chdir_ok in Hcd as (Hcwd & _ & _).
      unfold bind, run. cbn [andb].
      intros H. apply chdir_raise in H as [-> ->]. right. done.
    + apply chdir_raise in Hcd as [-> ->]. intros [= <- <-]. by left.
  - unfold generate_fmaps. cbv zeta. unfold bind at 1, getcwd. cbv beta iota.
    unfold bind at 1.
    destruct (chdir distcorr_dir w) as [[[]|e1] w1] eqn:Hcd.
    + apply chdir_ok in Hcd as (Hcwd & _ & _).
      intros H. right. rewrite <- Hcwd. revert H.
      generalize w1 e w'. clear.
      repeat (first
        [ apply stays_on_error_chdir
        | apply stays_on_error_bind;
            [first [apply stays_load | apply stays_save | apply stays_run
                   | apply stays_run_fsl]
            |intros ?] ]).
    + apply chdir_raise in Hcd as [-> ->]. intros [= <- <-]. by left.
Qed.

(** *** What [main] leaves alone outside the subject's directory *)

(** A path below the subject directory differs from one that is not. *)
Ltac below_differs Hout :=
  unfold asl_vol0, t1_asl_grid, t1_asl_grid_mask, gdc_path, pa_ap_sefms,
    gdc_tis_vol1_name, asl2struct_initial_path, mask_name, gdc_unreg_img_brain,
    wmmask, epi_dc_path, asl_outpath, calib_outpath, sfs_outpath, reg_est_t1_name,
    ti_asl, ti_t1, topup_params, fmap, fmapmag, fmapmagbrain, distcorr_out_dir,
    asl_out_dir, calib_out_dir, t1_asl_dir, distcorr_dir, reg_dir, t1_dir, asl_dir,
    join;
  rewrite ?String.eqb_refl, ?eqb_asl_structural, ?eqb_structural_asl;
  repeat match goal with
         | H : String.eqb _ _ = false |- _ => rewrite H
         end;
  rewrite <- ?app_assoc;
  let H := fresh in
  intros H; apply Hout; rewrite <- H; eexists; reflexivity.

Ltac outputs_below Hout :=
  unfold outputs;
  repeat (apply not_elem_of_cons; split; [apply not_eq_sym; below_differs Hout|]);
  apply not_elem_of_nil.

Ltac frame_step env_ok Hout :=
  lazymatch goal with
  | |- keeps _ (ret _) => apply keeps_ret
  | |- keeps _ (raise _) => apply keeps_raise
  | |- keeps _ (lift _) => apply keeps_lift
  | |- keeps _ (when _ _) => apply keeps_when
  | |- keeps _ (path_exists _) => apply keeps_path_exists
  | |- keeps _ (isfile _) => apply keeps_isfile
  | |- keeps _ getcwd => apply keeps_getcwd
  | |- keeps _ (chdir _) => apply keeps_chdir
  | |- keeps _ (load _) => apply keeps_load
  | |- keeps _ (load_grid _) => apply keeps_load_grid
  | |- keeps _ (binarise_image _) => apply keeps_load
  | |- keeps _ (makedirs _) => apply keeps_makedirs
  | |- keeps _ (deref _ _) => apply keeps_deref
  | |- keeps _ (save _ _) => apply keeps_save; below_differs Hout
  | |- keeps _ (append _ _) => apply keeps_append; below_differs Hout
  | |- keeps _ (remove _) => apply keeps_remove; below_differs Hout
  | |- keeps _ (replace _ _) => apply keeps_replace; below_differs Hout
  | |- keeps _ (run _ _ _) =>
      apply (keeps_run _ env_ok); intros ?; outputs_below Hout
  | |- keeps _ (run_fsl _ _) =>
      apply (keeps_run_fsl _ env_ok); intros ?; outputs_below Hout
  | |- keeps _ (if_stale _ _ _ _) => apply keeps_if_stale_other
  | |- keeps _ (Os.bind (chdir _) (fun _ => Os.bind (run _ _ _) _)) =>
      apply (keeps_chdir_run _ env_ok); [outputs_below Hout|intros ?]
  | |- keeps _ (Os.bind _ _) => apply keeps_bind; [|intros ?]
  | |- keeps _ (fun w => lift _ w) => apply keeps_find_field_maps
  | |- keeps _ (match ?v with Some _ => _ | None => _ end) => destruct v
  | |- keeps _ (if ?b then _ else _) => destruct b
  | |- keeps _ (resample_to _ _ _ _) => unfold resample_to
  | |- keeps _ (from_flirt _ _ _) => unfold from_flirt
  | |- keeps _ (from_mcflirt _ _ _) => unfold from_mcflirt
  | |- keeps _ (from_fnirt _ _ _ _ _) => unfold from_fnirt
  | |- keeps _ (generate_asl2struct_initial _ _ _ _ _) => unfold generate_asl2struct_initial
  | |- keeps _ (generate_gdc_warp _ _ _ _) => unfold generate_gdc_warp
  | |- keeps _ (generate_wmmask _) => unfold generate_wmmask
  | |- keeps _ (generate_topup_params _) => unfold generate_topup_params
  | |- keeps _ (generate_fmaps _ _ _ _ _) => unfold generate_fmaps; cbv zeta
  | |- keeps _ (generate_asl_mask _ _ _) => unfold generate_asl_mask
  | |- keeps _ (generate_epidc_warp _ _ _ _ _ _ _ _ _ _ _) =>
      unfold generate_epidc_warp; cbv zeta
  | |- keeps _ (create_ti_image _ _ _ _ _ _) => unfold create_ti_image
  end.

Section MainFrame.
Variable env : Command -> list string -> gmap (list string) Node -> ToolResult.
Hypothesis env_ok : well_behaved env.
Variable grid_size : list string -> nat * nat * nat.

Lemma main_keeps_outside (study_dir : list string) (sub_id : string)
    (grads : option (list string)) (target : string) (p : list string) :
  ~ join study_dir [sub_id] `prefix_of` p ->
  keeps p (main env grid_size study_dir sub_id grads target).
Proof.
  unfold main. cbv zeta. generalize (join study_dir [sub_id]). intros sb Hout.
  destruct (String.eqb target "asl") eqn:Hasl;
    [apply String.eqb_eq in Hasl; subst target; rewrite ?eqb_asl_structural
    |destruct (String.eqb target "structural") eqn:Hstr;
       [apply String.eqb_eq in Hstr; subst target|]];
    repeat frame_step env_ok Hout.
Qed.

Lemma main_keeps_inputs (study_dir : list string) (sub_id : string)
    (grads : option (list string)) (target : string) (p : list string) :
  In p (inputs (join study_dir [sub_id])) ->
  keeps p (main env grid_size study_dir sub_id grads target).
Proof.
  unfold main. cbv zeta. generalize (join study_dir [sub_id]). intros sb Hp.
  unfold inputs, tis_stcorr, tis, calib, mcdir, struct, struct_brain, aparc_seg,
    sfs_name, est_t1_name, perfusion in Hp.
  destruct (String.eqb target "asl") eqn:Hasl;
    [apply String.eqb_eq in Hasl; subst target; rewrite ?eqb_asl_structural
    |destruct (String.eqb target "structural") eqn:Hstr;
       [apply String.eqb_eq in Hstr; subst target|]].
  - cbn [In] in Hp.
    repeat (destruct Hp as [<-|Hp]; [repeat keeps_step env_ok|]). done.
  - cbn [In] in Hp.
    repeat (destruct Hp as [<-|Hp]; [repeat keeps_step env_ok|]). done.
  - cbn [In] in Hp.
    repeat (destruct Hp as [<-|Hp]; [repeat keeps_step env_ok|]). done.
Qed.

End MainFrame.

(** X6.  With programs that write only their documented outputs, [main]
    changes nothing outside the subject's directory: an entry that exists
    when [main] starts and does not lie in or below [study_dir/sub_id] is
    the same when it ends, whether it returns or raises, and nothing the
    run logs writes, removes or renames it. *)
Theorem main_stays_below_subject
    (env : Command -> list string -> gmap (list string) Node -> ToolResult)
    (grid_size : list string -> nat * nat * nat)
    (study_dir : list string) (sub_id : string) (grads : option (list string))
    (target : string) (p : list string) (w : World) :
  well_behaved env ->
  ~ join study_dir [sub_id] `prefix_of` p ->
  is_Some (fs w !! p) ->
  fs (snd (main env grid_size study_dir sub_id grads target w)) !! p = fs w !! p /\
  exists evs,
    log (snd (main env grid_size study_dir sub_id grads target w)) = (log w ++ evs)%list /\
    Forall (spares p) evs.
Proof.
  intros env_ok Hout Hsome.
  exact (main_keeps_outside env env_ok grid_size study_dir sub_id grads target p Hout
           w Hsome).
Qed.

(** The directory the demo run is started from. *)
Lemma main_stays_below_subject_witness :
  fs (snd (main tools_succeed demo_grid ["data"] "S1" demo_grads "asl" demo_world))
    !! ["home"]
  = fs demo_world !! ["home"] /\
  exists evs,
    log (snd (main tools_succeed demo_grid ["data"] "S1" demo_grads "asl" demo_world))
    = (log demo_world ++ evs)%list /\
    Forall (spares ["home"]) evs.
Proof.
  apply (main_stays_below_subject tools_succeed demo_grid ["data"] "S1" demo_grads "asl"
           ["home"] demo_world).
  - exact tools_succeed_well_behaved.
  - intros [k Hk]. discriminate Hk.
  - vm_compute. eauto.
Defined.

(** X7.  [main] leaves its inputs as they are.  With programs that write
    only their documented outputs, each of the images and matrices the
    driver reads (the ASL series before and after slice-timing correction,
    the calibration image, the motion-correction matrices, the structural
    image and its brain, the segmentation, the scaling factors, the
    estimated T1 map and the perfusion image) is, when present, the same
    after the run, and nothing the run logs writes, removes or renames it. *)
Theorem inputs_untouched
    (env : Command -> list string -> gmap (list string) Node -> ToolResult)
    (grid_size : list string -> nat * nat * nat)
    (study_dir : list string) (sub_id : string) (grads : option (list string))
    (target : string) (p : list string) (w : World) :
  well_behaved env ->
  In p (inputs (join study_dir [sub_id])) ->
  is_Some (fs w !! p) ->
  fs (snd (main env grid_size study_dir sub_id grads target w)) !! p = fs w !! p /\
  exists evs,
    log (snd (main env grid_size study_dir sub_id grads target w)) = (log w ++ evs)%list /\
    Forall (spares p) evs.
Proof.
  intros env_ok Hp Hsome.
  exact (main_keeps_inputs env env_ok grid_size study_dir sub_id grads target p Hp
           w Hsome).
Qed.

(** The calibration image of the demo subject. *)
Lemma inputs_untouched_witness :
  fs (snd (main tools_succeed demo_grid ["data"] "S1" demo_grads "asl" demo_world))
    !! calib demo_base
  = fs demo_world !! calib demo_base /\
  exists evs,
    log (snd (main tools_succeed demo_grid ["data"] "S1" demo_grads "asl" demo_world))
    = (log demo_world ++ evs)%list /\
    Forall (spares (calib demo_base)) evs.
Proof.
  apply (inputs_untouched tools_succeed demo_grid ["data"] "S1" demo_grads "asl"
           (calib demo_base) demo_world).
  - exact tools_succeed_well_behaved.
  - cbn [inputs In]. tauto.
  - vm_compute. eauto.
Defined.

(** *** Which steps belong to which pass *)

Ltac not_among :=
  repeat (apply not_elem_of_cons; split; [paths_differ|]); apply not_elem_of_nil.

Ltac in_its_pass_solver :=
  intros;
  split; intros ?;
  first [ discriminate
        | cbn [asl_pass_only structural_pass_only]; first [ tauto | not_among ] ].

Ltac removes_only_own_solver :=
  intros; cbn [removes_only_own]; first [ exact I | reflexivity | tauto ].

(** One step of a computation, [solver] settling what is asked of each
    event. *)
Ltac emits_with solver :=
  lazymatch goal with
  | |- emits _ _ (ret _) => apply emits_ret; exact I
  | |- emits _ _ (raise _) => apply emits_raise
  | |- emits _ _ (lift _) => apply emits_lift
  | |- emits _ _ (fun w => lift _ w) => by apply emits_silent
  | |- emits _ _ (when (?b && false) _) => rewrite (andb_false_r b); unfold when
  | |- emits _ _ (when _ _) => apply emits_when
  | |- emits _ _ (path_exists _) => apply emits_path_exists
  | |- emits _ _ (isfile _) => apply emits_isfile
  | |- emits _ _ getcwd => apply emits_getcwd
  | |- emits _ _ (chdir _) => apply emits_chdir
  | |- emits _ _ (load _) => apply emits_load
  | |- emits _ _ (load_grid _) => apply emits_load_grid
  | |- emits _ _ (binarise_image _) => apply emits_load
  | |- emits _ _ (makedirs _) => apply emits_makedirs
  | |- emits _ _ (deref _ _) => eapply emits_weaken; [apply emits_deref|done]
  | |- emits _ _ (save _ _) => apply emits_save; solver
  | |- emits _ _ (append _ _) => apply emits_append; solver
  | |- emits _ _ (remove _) => apply emits_remove; solver
  | |- emits _ _ (replace _ _) => apply emits_replace; solver
  | |- emits _ _ (run _ _ _) => apply emits_run; solver
  | |- emits _ _ (run_fsl _ _) => apply emits_run_fsl; solver
  | |- emits _ _ (if_stale _ _ _ _) =>
      apply emits_if_stale; [let H := fresh in intros H; try discriminate H|]
  | |- emits _ _ (Os.bind _ _) =>
      eapply (emits_bind _ (fun _ => True) (fun _ => True)); [|intros ? _]
  | |- emits _ _ (match ?v with Some _ => _ | None => _ end) => destruct v
  | |- emits _ _ (if ?b then _ else _) => destruct b
  | |- emits _ _ (resample_to _ _ _ _) => unfold resample_to
  | |- emits _ _ (from_flirt _ _ _) => unfold from_flirt
  | |- emits _ _ (from_mcflirt _ _ _) => unfold from_mcflirt
  | |- emits _ _ (from_fnirt _ _ _ _ _) => unfold from_fnirt
  | |- emits _ _ (generate_asl2struct_initial _ _ _ _ _) =>
      unfold generate_asl2struct_initial
  | |- emits _ _ (generate_gdc_warp _ _ _ _) => unfold generate_gdc_warp
  | |- emits _ _ (generate_wmmask _) => unfold generate_wmmask
  | |- emits _ _ (generate_topup_params _) => unfold generate_topup_params
  | |- emits _ _ (generate_fmaps _ _ _ _ _) => unfold generate_fmaps; cbv zeta
  | |- emits _ _ (generate_asl_mask _ _ _) => unfold generate_asl_mask
  | |- emits _ _ (generate_epidc_warp _ _ _ _ _ _ _ _ _ _ _) =>
      unfold generate_epidc_warp; cbv zeta
  | |- emits _ _ (create_ti_image _ _ _ _ _ _) => unfold create_ti_image
  end.

Section MainPasses.
Variable env : Command -> list string -> gmap (list string) Node -> ToolResult.
Variable grid_size : list string -> nat * nat * nat.

Lemma main_emits_in_its_pass (study_dir : list string) (sub_id : string)
    (grads : option (list string)) (target : string) :
  emits (in_its_pass (join study_dir [sub_id]) target) (fun _ => True)
        (main env grid_size study_dir sub_id grads target).
Proof.
  unfold main, in_its_pass. cbv zeta. generalize (join study_dir [sub_id]). intros sb.
  destruct (String.eqb target "asl") eqn:Hasl;
    [apply String.eqb_eq in Hasl; subst target; rewrite ?eqb_asl_structural
    |destruct (String.eqb target "structural") eqn:Hstr;
       [apply String.eqb_eq in Hstr; subst target|]];
    repeat emits_with ltac:(idtac; in_its_pass_solver).
Qed.

Lemma main_emits_removes_only_own (study_dir : list string) (sub_id : string)
    (grads : option (list string)) (target : string) :
  emits (removes_only_own (join study_dir [sub_id]) target) (fun _ => True)
        (main env grid_size study_dir sub_id grads target).
Proof.
  unfold main. cbv zeta. generalize (join study_dir [sub_id]). intros sb.
  repeat emits_with ltac:(idtac; removes_only_own_solver).
Qed.

End MainPasses.

(** X8.  Which steps belong to which pass.  A run for a target other than
    [asl] runs none of [fslroi], [gradient_unwarp.py], [topup] and [bet]
    and saves neither the ASL-gridded T1 image, its mask, the merged field
    maps, the field-map images, the gradient-corrected first volume, the
    white-matter mask nor the ASL-space timing image: it works from what
    an earlier run for [asl] left.  A run for a target other than
    [structural] saves neither the corrected calibration image, the
    registered T1 estimate nor the T1-space timing image. *)
Theorem steps_by_target
    (env : Command -> list string -> gmap (list string) Node -> ToolResult)
    (grid_size : list string -> nat * nat * nat)
    (study_dir : list string) (sub_id : string) (grads : option (list string))
    (target : string) (w : World) :
  exists evs,
    log (snd (main env grid_size study_dir sub_id grads target w)) = (log w ++ evs)%list /\
    (target <> "asl" ->
     Forall (fun e => ~ asl_pass_only (join study_dir [sub_id]) target e) evs) /\
    (target <> "structural" ->
     Forall (fun e => ~ structural_pass_only (join study_dir [sub_id]) e) evs).
Proof.
  destruct (main_emits_in_its_pass env grid_size study_dir sub_id grads target w)
    as (evs & Hlog & Hev & _).
  exists evs. split; [done|].
  split; intros Ht%String.eqb_neq; eapply Forall_impl; try exact Hev;
    intros e [H1 H2]; auto.
Qed.

(** X9.  [main] deletes nothing but the topup parameter file, which it
    writes anew, and renames nothing but the two files [asl_reg] leaves:
    the registration matrix in the registration directory and the warp in
    the distortion-correction directory, each to the name that carries the
    pass. *)
Theorem main_removes_only_own
    (env : Command -> list string -> gmap (list string) Node -> ToolResult)
    (grid_size : list string -> nat * nat * nat)
    (study_dir : list string) (sub_id : string) (grads : option (list string))
    (target : string) (w : World) :
  exists evs,
    log (snd (main env grid_size study_dir sub_id grads target w)) = (log w ++ evs)%list /\
    Forall (removes_only_own (join study_dir [sub_id]) target) evs.
Proof.
  destruct (main_emits_removes_only_own env grid_size study_dir sub_id grads target w)
    as (evs & Hlog & Hev & _).
  eauto.
Qed.

(** *** What is there when [main] returns *)

Lemma ensures_if_stale {A} (p : list string) (body otherwise : M A) :
  ensures p body -> keeps p otherwise -> ensures p (if_stale p true body otherwise).
Proof.
  intros Hb Ho w a w'. unfold if_stale, bind, path_exists. rewrite andb_true_r.
  destruct (bool_decide (is_Some (fs w !! p))) eqn:Hp; cbn.
  - apply bool_decide_eq_true in Hp. intros H.
    destruct (Ho w Hp) as [Hfs _]. rewrite H in Hfs. cbn [snd] in Hfs. by rewrite Hfs.
  - apply Hb.
Qed.

Lemma ensures_resample_to (t : Transform) (src : list string) (ref : Grid)
    (out : list string) :
  ensures out (resample_to t src ref out).
Proof.
  unfold resample_to. do 2 (apply ensures_later; intros _). apply ensures_save.
Qed.

Section MainEnsures.
Variable env : Command -> list string -> gmap (list string) Node -> ToolResult.
Variable grid_size : list string -> nat * nat * nat.

Lemma ensures_create_ti_image (asl : list string) (tis : list Q) (sliceband : Z)
    (slicedt : Q) (outname : list string) :
  ensures outname (create_ti_image grid_size asl tis sliceband slicedt outname).
Proof.
  unfold create_ti_image. do 2 (apply ensures_later; intros ?). apply ensures_save.
Qed.

(** Skip the steps before the one that tests for the file. *)
Ltac skip_to_step :=
  repeat lazymatch goal with
         | |- ensures ?p (Os.bind (if_stale ?p _ _ _) _) => fail
         | |- ensures ?p (if_stale ?p _ _ _) => fail
         | |- ensures _ (Os.bind _ _) => apply ensures_later; intros ?
         end.

Ltac ensured_here :=
  apply ensures_if_stale;
  [ first [ apply ensures_resample_to
          | apply ensures_create_ti_image
          | apply ensures_now; [apply ensures_resample_to|intros ?; apply keeps_ret]
          | apply ensures_later; intros ?; apply ensures_resample_to ]
  | apply keeps_ret ].

(** The steps after it leave the file alone: none of them runs a
    program. *)
Ltac ensured :=
  skip_to_step;
  lazymatch goal with
  | |- ensures _ (Os.bind _ _) =>
      apply ensures_now; [ensured_here|intros ?; repeat keeps_step I]
  | |- ensures _ (if_stale _ _ _ _) => ensured_here
  end.

Lemma main_ensures (study_dir : list string) (sub_id : string)
    (grads : option (list string)) (target : string) (p : list string) :
  target = "asl" \/ target = "structural" ->
  In p (final_products (join study_dir [sub_id]) target) ->
  ensures p (main env grid_size study_dir sub_id grads target).
Proof.
  unfold main, final_products. cbv zeta.
  generalize (join study_dir [sub_id]). intros sb Ht Hp.
  destruct Ht as [-> | ->].
  - change (String.eqb "asl" "asl") with true in *.
    change (String.eqb "asl" "structural") with false in *.
    cbn [app In] in Hp.
    destruct Hp as [<-|[<-|[<-|[]]]]; ensured.
  - change (String.eqb "structural" "structural") with true in *.
    change (String.eqb "structural" "asl") with false in *.
    cbn [app In] in Hp.
    destruct Hp as [<-|[<-|[<-|[<-|[<-|[]]]]]]; ensured.
Qed.

(** X10.  When [main] returns normally, the files the run is made for
    are there: the corrected ASL series and the scaling factors, with the
    ASL-space timing image for target [asl], and with the corrected
    calibration image, the registered T1 estimate and the T1-space timing
    image for target [structural]. *)
Theorem products_exist_on_return (study_dir : list string) (sub_id : string)
    (grads : option (list string)) (target : string) (w : World) :
  fst (main env grid_size study_dir sub_id grads target w) = Ok tt ->
  Forall (fun p => is_Some (fs (snd (main env grid_size study_dir sub_id grads target w))
                            !! p))
         (final_products (join study_dir [sub_id]) target).
Proof.
  intros Hok. apply Forall_forall. intros p Hp%list_elem_of_In.
  pose proof (main_returns_for_known_target env grid_size study_dir sub_id grads target
                w Hok) as Ht.
  pose proof (main_ensures study_dir sub_id grads target p Ht Hp w tt) as Hens.
  destruct (main env grid_size study_dir sub_id grads target w) as [r w'].
  cbn [fst snd] in *. subst r. by apply Hens.
Qed.

End MainEnsures.

(** The first run of the demo subject. *)
Lemma products_exist_on_return_witness :
  Forall (fun p => is_Some (fs (snd (main tools_succeed demo_grid ["data"] "S1"
                                          demo_grads "asl" demo_world)) !! p))
         (final_products (join ["data"] ["S1"]) "asl").
Proof.
  apply (products_exist_on_return tools_succeed demo_grid ["data"] "S1" demo_grads "asl"
           demo_world).
  vm_compute. reflexivity.
Defined.

(** *** The image that is registered *)

Lemma monitor_saved_other (sb p : list string) (c : Content) (s : bool) :
  p <> gdc_tis_vol1_name sb "asl" ->
  unregistered_monitor sb s (Saved p c) = Some s.
Proof.
  intros Hp. unfold unregistered_monitor. cbn.
  by rewrite bool_decide_eq_false_2, orb_false_r.
Qed.

Lemma monitor_bet_other (sb i o d : list string) (rc : Z) (s : bool) :
  o <> gdc_unreg_img_brain sb ->
  unregistered_monitor sb s (Ran (Bet i o) d rc) = Some s.
Proof.
  intros Ho. unfold unregistered_monitor. cbn.
  rewrite decide_False by done. by rewrite orb_false_r.
Qed.

Lemma monitor_bet (sb d : list string) (rc : Z) (s : bool) :
  unregistered_monitor sb s
    (Ran (Bet (unregistered sb s) (gdc_unreg_img_brain sb)) d rc) = Some s.
Proof.
  unfold unregistered_monitor. cbn. rewrite decide_True by done.
  by rewrite decide_True.
Qed.

Lemma monitor_asl_reg (sb o st sbet d : list string) (rc : Z) (s : bool) :
  unregistered_monitor sb s (Ran (AslRegMain (unregistered sb s) o st sbet) d rc)
  = Some s.
Proof. unfold unregistered_monitor. cbn. by rewrite decide_True. Qed.

Lemma monitor_other (sb : list string) (s : bool) (e : Event) :
  reads_unregistered sb e = None ->
  saves (gdc_tis_vol1_name sb "asl") e = false ->
  unregistered_monitor sb s e = Some s.
Proof.
  intros Hr Hs. unfold unregistered_monitor. by rewrite Hr, Hs, orb_false_r.
Qed.

Lemma monitor_state (sb : list string) (s s' : bool) (evs : list Event) :
  watch (unregistered_monitor sb) s evs = Some s' ->
  s' = s || existsb (saves (gdc_tis_vol1_name sb "asl")) evs.
Proof.
  revert s. induction evs as [|e evs IH]; intros s; cbn [watch existsb].
  - intros [= <-]. by rewrite orb_false_r.
  - unfold unregistered_monitor at 1.
    destruct (reads_unregistered sb e) as [i|] eqn:Hr.
    + destruct (decide _); [|discriminate]. intros H%IH.
      assert (saves (gdc_tis_vol1_name sb "asl") e = false) as ->
        by (by destruct e as [[]| | |]).
      done.
    + intros H%IH. by rewrite orb_assoc.
Qed.

Ltac monitor_solver :=
  intros;
  first [ apply monitor_asl_reg
        | apply monitor_bet
        | apply monitor_saved_other; paths_differ
        | apply monitor_bet_other; paths_differ
        | apply monitor_other; reflexivity ].

Lemma follows_if_stale {St A} (step : St -> Event -> option St) (s : St)
    (Q : A -> St -> Prop) (p : list string) (also : bool) (body otherwise : M A) :
  (also = true -> follows step s Q body) -> follows step s Q otherwise ->
  follows step s Q (if_stale p also body otherwise).
Proof.
  intros Hb Ho. unfold if_stale.
  eapply follows_bind; [apply (follows_quiet step s); done|]. intros b ? ->.
  destruct also; [|by rewrite andb_false_r].
  destruct (negb b || force_refresh); cbn; auto.
Qed.

Lemma follows_deref {St A B} (step : St -> Event -> option St) (s : St)
    (R : B -> St -> Prop) (name : string) (v : option A) (k : A -> M B) :
  (forall a, v = Some a -> follows step s R (k a)) ->
  follows step s R (x <- deref name v ;; k x).
Proof.
  intros Hk. destruct v as [a|]; cbn [deref].
  - intros w. exact (Hk a eq_refl w).
  - intros w. exists [], s. rewrite app_nil_r. repeat split. intros b [=].
Qed.

Lemma follows_load_grid {St} (step : St -> Event -> option St) (s : St) (g : Grid) :
  follows step s (fun _ s' => s' = s) (load_grid g).
Proof.
  destruct g; cbn [load_grid]; [apply follows_load|].
  apply follows_then; [apply follows_load|]. intros _. apply follows_load.
Qed.

(** One step that leaves the monitor's state as it is. *)
Ltac follow_step :=
  lazymatch goal with
  | |- follows _ _ _ (ret _) => apply follows_ret
  | |- follows _ _ _ (raise _) => apply follows_raise
  | |- follows _ _ _ (lift _) => by apply follows_quiet
  | |- follows _ _ _ (fun w => lift _ w) => by apply follows_quiet
  | |- follows _ _ _ (when _ _) => apply follows_when
  | |- follows _ _ _ (path_exists _) => by apply follows_quiet
  | |- follows _ _ _ (isfile _) => by apply follows_quiet
  | |- follows _ _ _ getcwd => by apply follows_quiet
  | |- follows _ _ _ (chdir _) => apply follows_chdir
  | |- follows _ _ _ (load _) => apply follows_load
  | |- follows _ _ _ (load_grid _) => apply follows_load_grid
  | |- follows _ _ _ (binarise_image _) => apply follows_load
  | |- follows _ _ _ (makedirs _) => apply follows_makedirs
  | |- follows _ _ _ (save _ _) => apply follows_save; monitor_solver
  | |- follows _ _ _ (append _ _) => apply follows_append; monitor_solver
  | |- follows _ _ _ (remove _) => apply follows_remove; monitor_solver
  | |- follows _ _ _ (replace _ _) => apply follows_replace; monitor_solver
  | |- follows _ _ _ (run _ _ _) => apply follows_run; monitor_solver
  | |- follows _ _ _ (run_fsl _ _) => apply follows_run_fsl; monitor_solver
  | |- follows _ _ _ (if_stale _ _ _ _) =>
      apply follows_if_stale; [let H := fresh in intros H; try discriminate H|]
  | |- follows _ _ _ (Os.bind (deref _ _) _) =>
      apply follows_deref; let a := fresh in intros a [= <-]
  | |- follows _ _ _ (Os.bind _ _) => apply follows_then; [|intros ?]
  | |- follows _ _ _ (match ?v with Some _ => _ | None => _ end) => destruct v
  | |- follows _ _ _ (if ?b then _ else _) => destruct b
  | |- follows _ _ _ (resample_to _ _ _ _) => unfold resample_to
  | |- follows _ _ _ (from_flirt _ _ _) => unfold from_flirt
  | |- follows _ _ _ (from_mcflirt _ _ _) => unfold from_mcflirt
  | |- follows _ _ _ (from_fnirt _ _ _ _ _) => unfold from_fnirt
  | |- follows _ _ _ (generate_asl2struct_initial _ _ _ _ _) =>
      unfold generate_asl2struct_initial
  | |- follows _ _ _ (generate_gdc_warp _ _ _ _) => unfold generate_gdc_warp
  | |- follows _ _ _ (generate_wmmask _) => unfold generate_wmmask
  | |- follows _ _ _ (generate_topup_params _) => unfold generate_topup_params
  | |- follows _ _ _ (generate_fmaps _ _ _ _ _) => unfold generate_fmaps; cbv zeta
  | |- follows _ _ _ (generate_asl_mask _ _ _) => unfold generate_asl_mask
  | |- follows _ _ _ (generate_epidc_warp _ _ _ _ _ _ _ _ _ _ _) =>
      unfold generate_epidc_warp; cbv zeta
  | |- follows _ _ _ (create_ti_image _ _ _ _ _ _) => unfold create_ti_image
  end.

Section MainUnregistered.
Variable env : Command -> list string -> gmap (list string) Node -> ToolResult.
Variable grid_size : list string -> nat * nat * nat.

(** Lines 376-384: the corrected volume is bound to [unreg_img] only in
    the branch that saves it. *)
Lemma follows_gdc_tis_vol1 (sb : list string) (t : Transform) :
  follows (unregistered_monitor sb) false
    (fun v s' => v = Some (unregistered sb s'))
    (if_stale (gdc_tis_vol1_name sb "asl") true
       (img <- deref "unreg_img" (Some (asl_vol0 sb)) ;;
        resample_to t img (GridOf img) (gdc_tis_vol1_name sb "asl") ;;
        ret (Some (gdc_tis_vol1_name sb "asl")))
       (ret (Some (asl_vol0 sb)))).
Proof.
  apply follows_if_stale; [intros _|].
  - apply follows_deref. intros ? [= <-].
    eapply (follows_bind _ _ (fun _ s' => s' = true)).
    + unfold resample_to. do 2 (apply follows_then; [follow_step|intros _]).
      apply follows_save. unfold unregistered_monitor. cbn.
      by rewrite bool_decide_eq_true_2.
    + intros _ ? ->. apply follows_silent; [done|]. by intros w v [= <-].
  - apply follows_silent; [done|]. by intros w v [= <-].
Qed.

Lemma main_follows (study_dir : list string) (sub_id : string)
    (grads : option (list string)) :
  follows (unregistered_monitor (join study_dir [sub_id])) false (fun _ _ => True)
          (main env grid_size study_dir sub_id grads "asl").
Proof.
  unfold main. cbv zeta. generalize (join study_dir [sub_id]). intros sb.
  change (String.eqb "asl" "asl") with true.
  change (String.eqb "asl" "structural") with false.
  cbv beta iota.
  do 20 (apply follows_then; [repeat follow_step|intros ?]).
  eapply follows_bind; [apply follows_gdc_tis_vol1|].
  intros ? corrected ->.
  apply (follows_weaken _ _ (fun _ s' => s' = corrected)); [|done].
  repeat follow_step.
Qed.

End MainUnregistered.

(** X11.  In a run for target [asl], [asl_reg --mainonly] and the [bet]
    that writes [gdc_tis_vol1_brain.nii.gz] read the gradient-corrected
    first volume only when the run itself has saved it before.  When
    [gdc_tis_vol1.nii.gz] is there from an earlier run it is not saved
    again, and then both programs read the first volume as extracted,
    without the gradient correction: [unreg_img] is rebound only inside
    the branch that writes the file. *)
Theorem unregistered_image_follows_cache
    (env : Command -> list string -> gmap (list string) Node -> ToolResult)
    (grid_size : list string -> nat * nat * nat)
    (study_dir : list string) (sub_id : string) (grads : option (list string))
    (w : World) :
  exists evs,
    log (snd (main env grid_size study_dir sub_id grads "asl" w)) = (log w ++ evs)%list /\
    forall front e back i,
      evs = (front ++ e :: back)%list ->
      reads_unregistered (join study_dir [sub_id]) e = Some i ->
      i = unregistered (join study_dir [sub_id])
            (existsb (saves (gdc_tis_vol1_name (join study_dir [sub_id]) "asl")) front).
Proof.
  destruct (main_follows env grid_size study_dir sub_id grads w)
    as (evs & s' & Hlog & Hwatch & _).
  exists evs. split; [done|]. intros front e back i -> Hreads.
  rewrite watch_app in Hwatch.
  destruct (watch _ false front) as [s1|] eqn:Hfront; [|discriminate].
  apply monitor_state in Hfront. cbn [orb] in Hfront. subst s1.
  cbn [watch] in Hwatch. unfold unregistered_monitor at 1 in Hwatch.
  rewrite Hreads in Hwatch. by destruct (decide _).
Qed.

(** Both cases occur: on the fresh subject both programs read the
    corrected volume; with the corrected volume left by an earlier run
    they read the uncorrected one. *)
Example rerun_registers_uncorrected_volume :
  omap (reads_unregistered demo_base) (log (snd demo_run_asl))
  = [gdc_tis_vol1_name demo_base "asl"; gdc_tis_vol1_name demo_base "asl"] /\
  fst demo_run_corrected_before = Ok tt /\
  omap (reads_unregistered demo_base) (log (snd demo_run_corrected_before))
  = [asl_vol0 demo_base; asl_vol0 demo_base].
Proof. vm_compute. repeat split; reflexivity. Qed.

End DistcorrWarpsMoreFacts.

(** ** More about the MT-estimation driver *)

Module MtEstimationMoreFacts.
Import MtEstimation.

(** Whatever the key, a value of [ROIS] is a non-empty list of tissues. *)
Lemma ROIS_values (key : string) (rois : list string) :
  ROIS key = Some rois ->
  rois <> [] /\ Forall (fun r => In r ["wm"; "gm"; "csf"; "combined"]) rois.
Proof.
  unfold ROIS.
  repeat (destruct (String.eqb key _); [intros [= <-]; split; [discriminate|]|]);
    try discriminate;
    apply List.Forall_forall; intros r Hr; cbn [In] in Hr |- *; tauto.
Qed.

Section Main.
Variable py_int : string -> option Z.
Variable cpu_count : Z.
Variable cwd : string.
Variable resolve : string -> option (list string).
Variable loadtxt : list string -> Res (list string).
Variable setup_mtestimation :
  list string -> list string -> string -> Z -> bool -> bool -> Res SetupResult.
Variable estimate_mt :
  list (list string) -> list string -> Z -> string -> string -> bool -> Res (list string).

Local Abbreviation parse_args := (MtEstimation.parse_args py_int cpu_count cwd).
Local Abbreviation resolve_strict := (MtEstimation.resolve_strict resolve).
Local Abbreviation run_pipeline :=
  (MtEstimation.run_pipeline resolve loadtxt setup_mtestimation estimate_mt).
Local Abbreviation main :=
  (MtEstimation.main py_int cpu_count cwd resolve loadtxt setup_mtestimation estimate_mt).

(** What [parse_args] puts in the namespace, option by option. *)
Lemma parse_args_fields (a : RawArgs) (ns : Namespace) :
  parse_args a = Ok ns ->
  raw_studydir a = Some (studydir ns) /\
  raw_subjectlist a = Some (subjectlist ns) /\
  raw_grads a = Some (grads ns) /\
  choice ["combined"; "wm"; "gm"; "csf"; "all"] "combined" (raw_roi a) = Ok (roi ns) /\
  ignore_dropouts ns = raw_ignore_dropouts a /\
  no_refresh ns = negb (raw_no_refresh a).
Proof.
  unfold MtEstimation.parse_args, required.
  destruct (raw_studydir a); [|discriminate].
  destruct (raw_subjectlist a); [|discriminate].
  cbn [rbind].
  destruct (choice _ _ (raw_roi a)); [|discriminate].
  destruct (choice _ _ (raw_method a)); [|discriminate].
  destruct (raw_grads a); [|discriminate].
  cbn [rbind].
  destruct (MtEstimation.int_choice py_int 1 _ 1 (raw_cores a)); [|discriminate].
  destruct (MtEstimation.int_choice py_int 0 _ 3 (raw_interpolation a)); [|discriminate].
  cbn [rbind]. intros [= <-]. cbn. done.
Qed.

Lemma choice_member (choices : list string) (default s : string) (v : option string) :
  choice choices default v = Ok s -> s = default \/ In s choices.
Proof.
  unfold choice, usage_error. destruct v as [x|]; [|intros [= <-]; by left].
  destruct (existsb (String.eqb x) choices) eqn:Hx; [|discriminate].
  intros [= <-]. right. apply existsb_exists in Hx as (y & Hy & Heq).
  apply String.eqb_eq in Heq. by subst.
Qed.

(** X12.  The regions accepted on the command line are keys of [ROIS]:
    for every accepted command line the lookup [ROIS[args.roi]] succeeds
    (no KeyError), and it gives a non-empty list of tissues among wm, gm,
    csf and combined. *)
Theorem accepted_roi_is_a_key (a : RawArgs) (ns : Namespace) :
  parse_args a = Ok ns ->
  exists rois,
    ROIS (roi ns) = Some rois /\
    rois <> [] /\
    Forall (fun r => In r ["wm"; "gm"; "csf"; "combined"]) rois.
Proof.
  intros Hp. apply parse_args_fields in Hp as (_ & _ & _ & Hroi & _).
  assert (Hkey : is_Some (ROIS (roi ns))).
  { apply choice_member in Hroi as [->|Hin]; [eexists; reflexivity|].
    cbn [In] in Hin.
    destruct Hin as [<-|[<-|[<-|[<-|[<-|[]]]]]]; eexists; reflexivity. }
  destruct Hkey as [rois Hrois]. exists rois. split; [exact Hrois|].
  exact (ROIS_values (roi ns) rois Hrois).
Qed.

(** X13.  Without [--studydir], [--subjectlist] or [--grads] the driver
    exits with status 2 and neither prints nor calls anything. *)
Theorem required_options_missing (a : RawArgs) :
  raw_studydir a = None \/ raw_subjectlist a = None \/ raw_grads a = None ->
  main a = (Raise (SystemExit 2), []).
Proof.
  intros Hmiss. unfold MtEstimation.main.
  destruct (parse_args a) as [ns|e] eqn:Hp.
  - apply parse_args_fields in Hp as (H1 & H2 & H3 & _).
    destruct Hmiss as [H|[H|H]]; congruence.
  - f_equal. f_equal.
    revert Hp. unfold MtEstimation.parse_args, required, choice,
      MtEstimation.int_choice, usage_error.
    repeat (match goal with
            | |- context [match ?x with _ => _ end] => destruct x
            | |- context [if ?b then _ else _] => destruct b
            end; cbn [rbind]; try congruence).
Qed.

(** Every event of a run is a print, the setup call of some subject with
    the namespace's options, or the one call of [estimate_mt]. *)
Lemma run_pipeline_events (ns : Namespace) (r : Res unit) (evs : list Event) (e : Event) :
  run_pipeline ns = (r, evs) ->
  e ∈ evs ->
  (exists what, e = Print what) \/
  (exists rois subj, ROIS (roi ns) = Some rois /\ e = setup_event ns rois subj) \/
  (exists rois subs, ROIS (roi ns) = Some rois /\
     e = EstimateCall subs rois TR (method ns) (out ns) (ignore_dropouts ns)).
Proof.
  unfold MtEstimation.run_pipeline.
  destruct (MtEstimation.resolve_strict resolve (studydir ns)) as [sd|];
    [|intros [= _ <-]; by intros ?%elem_of_nil].
  destruct (rbind _ loadtxt) as [names|];
    [|intros [= _ <-]; by intros ?%elem_of_nil].
  destruct (ROIS (roi ns)) as [rs|];
    [|intros [= _ <-]; by intros ?%elem_of_nil].
  set (subjects := map _ names).
  set (said := if verbose ns then _ else _).
  assert (Hsaid : e ∈ said -> exists what, e = Print what).
  { unfold said. destruct (verbose ns); [|by intros ?%elem_of_nil].
    intros He. repeat (apply elem_of_cons in He as [->|He]; [eauto|]).
    by apply elem_of_nil in He. }
  assert (Hcall : e ∈ map (setup_event ns rs) subjects ->
                  exists rois subj, Some rs = Some rois /\ e = setup_event ns rois subj).
  { intros He. apply list_elem_of_In, in_map_iff in He as (x & <- & _). eauto. }
  assert (Hprint : forall results : list SetupResult,
            e ∈ map (fun r => Print (ResultLine r)) results -> exists what, e = Print what).
  { intros results He. apply list_elem_of_In, in_map_iff in He as (x & <- & _). eauto. }
  assert (Herr : forall errors : list string,
            e ∈ map (fun m => Print (ErrorLine m)) errors -> exists what, e = Print what).
  { intros errors He. apply list_elem_of_In, in_map_iff in He as (x & <- & _). eauto. }
  assert (Htime : e ∈ (if time ns then [Print TimeLine] else []) -> exists what, e = Print what).
  { destruct (time ns); [|by intros ?%elem_of_nil].
    intros He. apply elem_of_cons in He as [->|He]; [eauto|]. by apply elem_of_nil in He. }
  assert (Hest : forall subs,
            e ∈ [EstimateCall subs rs TR (method ns) (out ns) (ignore_dropouts ns)] ->
            exists rois subs, Some rs = Some rois /\
              e = EstimateCall subs rois TR (method ns) (out ns) (ignore_dropouts ns)).
  { intros subs He. apply elem_of_cons in He as [->|He]; [eauto|].
    by apply elem_of_nil in He. }
  destruct (rmap _ subjects) as [results|].
  2:{ intros [= _ <-] He. rewrite ?elem_of_app in He.
      repeat match goal with H : _ \/ _ |- _ => destruct H end; eauto. }
  rewrite MtEstimationFacts.report_spec. cbn [app].
  destruct (time ns && _).
  { intros [= _ <-] He. rewrite ?elem_of_app in He.
    repeat match goal with H : _ \/ _ |- _ => destruct H end; eauto. }
  destruct (estimate_mt _ _ _ _ _ _) as [errors|]; intros [= _ <-] He;
    rewrite ?elem_of_app in He; repeat match goal with H : _ \/ _ |- _ => destruct H end; eauto 6.
Qed.



End Main.

(** The demo command line is accepted. *)
Lemma accepted_roi_is_a_key_witness :
  exists rois,
    ROIS (roi demo_namespace) = Some rois /\
    rois <> [] /\
    Forall (fun r => In r ["wm"; "gm"; "csf"; "combined"]) rois.
Proof.
  apply (accepted_roi_is_a_key int_of_decimal 4 "here" (demo_args None) demo_namespace).
  reflexivity.
Defined.

(** A command line without [--grads]. *)
Lemma required_options_missing_witness :
  MtEstimation.main int_of_decimal 4 "here" demo_resolve demo_loadtxt demo_setup
                    demo_estimate demo_args_no_grads
  = (Raise (SystemExit 2), []).
Proof.
  apply (required_options_missing int_of_decimal 4 "here" demo_resolve demo_loadtxt
           demo_setup demo_estimate demo_args_no_grads).
  right. right. reflexivity.
Defined.



End MtEstimationMoreFacts.
